(** * webapp2_extras.sessions: session containers, factories and the store

    A shallow embedding of [webapp2_extras/sessions.py].  Python objects
    that are shared and mutated (session dictionaries, session stores)
    live in a heap and are named by handles; dictionaries are finite
    maps; exceptions are outcomes that keep the state reached so far. *)

From Stdlib Require Import ZArith.
From stdpp Require Import gmap strings list fin_maps.

#[local] Set Warnings "-register-all".
#[local] Open Scope string_scope.

(** ** Python values and exceptions *)

(** The values a session can hold (what the cookie serializer accepts). *)
Inductive pyval :=
| VNone
| VBool (b : bool)
| VInt (z : Z)
| VStr (s : string)
| VList (l : list pyval)
| VTuple (l : list pyval)
| VDict (d : gmap string pyval).

(** The exceptions raised in this module.  [ConfigError] is the
    "configuration error" of the signer; [InvalidHandle] has no Python
    counterpart: it is the outcome of following a handle that names no
    object, which a well-formed heap never does. *)
Inductive exn :=
| KeyError (key : string)
| AssertionError (msg : string)
| NotImplementedError
| AttributeError (attr : string)
| ConfigError
| InvalidHandle.

Inductive outcome (A : Type) :=
| Return (a : A)
| Raise (e : exn).
Arguments Return {A} a.
Arguments Raise {A} e.

(** Code that mutates a state [S] and either returns or raises; a raise
    keeps the mutations made before it. *)
Definition Eff (S A : Type) : Type := S -> outcome A * S.

Definition ret {S A} (a : A) : Eff S A := fun s => (Return a, s).
Definition raise {S A} (e : exn) : Eff S A := fun s => (Raise e, s).
Definition bind {S A B} (m : Eff S A) (k : A -> Eff S B) : Eff S B :=
  fun s => match m s with
           | (Return a, s') => k a s'
           | (Raise e, s') => (Raise e, s')
           end.
Definition gets {S A} (f : S -> A) : Eff S A := fun s => (Return (f s), s).
Definition modify {S} (f : S -> S) : Eff S unit := fun s => (Return tt, f s).

Notation "'let*' x ':=' m 'in' k" := (bind m (fun x => k))
  (at level 10, x pattern, m at level 100, k at level 200).
Notation "m '>>' k" := (bind m (fun _ => k))
  (at level 100, k at level 200, right associativity).

(** The value returned and the state left by a call. *)
Definition result {S A} (r : outcome A * S) : outcome A := fst r.
Definition after {S A} (r : outcome A * S) : S := snd r.

(** ** The builtin [dict] methods that [SessionDict] inherits *)

Module dict.

Definition __setitem__ (key : string) (value : pyval) : Eff (gmap string pyval) unit :=
  modify (fun d => <[key := value]> d).

Definition __delitem__ (key : string) : Eff (gmap string pyval) unit :=
  fun d => match d !! key with
           | Some _ => (Return tt, delete key d)
           | None => (Raise (KeyError key), d)
           end.

Definition clear : Eff (gmap string pyval) unit :=
  modify (fun _ => ∅).

(** [d.pop(key, *args)]: [args] is the optional default. *)
Definition pop (key : string) (args : option pyval) : Eff (gmap string pyval) pyval :=
  fun d => match d !! key, args with
           | Some v, _ => (Return v, delete key d)
           | None, Some default => (Return default, d)
           | None, None => (Raise (KeyError key), d)
           end.

(** [d.popitem()] removes some item; which one is left open by Python 2. *)
Definition popitem : Eff (gmap string pyval) pyval :=
  fun d => match map_to_list d with
           | (k, v) :: _ => (Return (VTuple [VStr k; v]), delete k d)
           | [] => (Raise (KeyError "popitem(): dictionary is empty"), d)
           end.

Definition setdefault (key : string) (default : pyval) : Eff (gmap string pyval) pyval :=
  fun d => match d !! key with
           | Some v => (Return v, d)
           | None => (Return default, <[key := default]> d)
           end.

(** [d.update(other)]: the entries of [other] win. *)
Definition update (other : gmap string pyval) : Eff (gmap string pyval) unit :=
  modify (fun d => other ∪ d).

Definition get (key : string) (default : pyval) (d : gmap string pyval) : pyval :=
  match d !! key with Some v => v | None => default end.

Definition __getitem__ (key : string) : Eff (gmap string pyval) pyval :=
  fun d => match d !! key with
           | Some v => (Return v, d)
           | None => (Raise (KeyError key), d)
           end.

Definition __contains__ (key : string) (d : gmap string pyval) : bool :=
  bool_decide (is_Some (d !! key)).

(** Truth value of a dict: [len(d) != 0]. *)
Definition __bool__ (d : gmap string pyval) : bool :=
  negb (Nat.eqb (size d) 0).

End dict.

(** ** SessionDict *)

(** [class SessionDict(_UpdateDictMixin, dict)] with its slots; [items]
    is the dictionary the object itself is.  [container] is the
    back-reference to the owning factory, named by the handle of its
    store and its session name. *)
Record SessionDict := mkSessionDict {
  container : nat * string;
  new : bool;
  modified : bool;
  items : gmap string pyval
}.

Definition set_items (self : SessionDict) (d : gmap string pyval) : SessionDict :=
  {| container := container self; new := new self;
     modified := modified self; items := d |}.

(** [SessionDict.__init__]: [dict.update(self, data or ())] bypasses the
    mixin, so the flag stays [False]. *)
Definition SessionDict_init (cont : nat * string) (data : option (gmap string pyval))
    (is_new : bool) : SessionDict :=
  {| container := cont; new := is_new; modified := false;
     items := after (dict.update
                       match data with
                       | Some d => if dict.__bool__ d then d else ∅
                       | None => ∅
                       end ∅) |}.

(** [SessionDict.on_update] *)
Definition on_update (self : SessionDict) : SessionDict :=
  {| container := container self; new := new self;
     modified := true; items := items self |}.

(** [_UpdateDictMixin.calls_update(name)]: call the [dict] method, and
    when it has returned call [on_update]; a raise of the [dict] method
    propagates before [on_update] is reached. *)
Definition calls_update {A} (method : Eff (gmap string pyval) A) : Eff SessionDict A :=
  fun self => match method (items self) with
              | (Return rv, d) => (Return rv, on_update (set_items self d))
              | (Raise e, d) => (Raise e, set_items self d)
              end.

Module _UpdateDictMixin.
Definition __setitem__ key value := calls_update (dict.__setitem__ key value).
Definition __delitem__ key := calls_update (dict.__delitem__ key).
Definition clear := calls_update dict.clear.
Definition pop key args := calls_update (dict.pop key args).
Definition popitem := calls_update dict.popitem.
Definition setdefault key default := calls_update (dict.setdefault key default).
Definition update other := calls_update (dict.update other).
End _UpdateDictMixin.

(** The methods [SessionDict] resolves to the mixin. *)
Definition __setitem__ := _UpdateDictMixin.__setitem__.
Definition __delitem__ := _UpdateDictMixin.__delitem__.
Definition clear := _UpdateDictMixin.clear.
Definition popitem := _UpdateDictMixin.popitem.
Definition setdefault := _UpdateDictMixin.setdefault.
Definition update := _UpdateDictMixin.update.

(** [SessionDict.pop]: the mixin's [pop] runs only when the key is there. *)
Definition pop (key : string) (args : option pyval) : Eff SessionDict pyval :=
  fun self =>
    if dict.__contains__ key (items self) then _UpdateDictMixin.pop key args self
    else match args with
         | Some default => (Return default, self)
         | None => (Raise (KeyError key), self)
         end.

(** Methods inherited from [dict] unchanged. *)
Definition get (key : string) (default : pyval) : Eff SessionDict pyval :=
  gets (fun self => dict.get key default (items self)).
Definition __getitem__ (key : string) : Eff SessionDict pyval :=
  fun self => (fst (dict.__getitem__ key (items self)), self).
Definition __contains__ (key : string) : Eff SessionDict bool :=
  gets (fun self => dict.__contains__ key (items self)).

(** Default flash key. *)
Definition _flash : string := "_flash".

(** [SessionDict.get_flashes(key)] *)
Definition get_flashes (key : string) : Eff SessionDict pyval :=
  pop key (Some (VList [])).

(** [list.append] on the object stored under [key], in place: the list
    that [setdefault] returned is the one the dictionary holds. *)
Definition append_stored (key : string) (x : pyval) : Eff SessionDict unit :=
  fun self => match items self !! key with
              | Some (VList l) => (Return tt, set_items self (<[key := VList (l ++ [x])]> (items self)))
              | _ => (Raise (AttributeError "append"), self)
              end.

(** [SessionDict.add_flash(value, level, key)] *)
Definition add_flash (value level : pyval) (key : string) : Eff SessionDict unit :=
  setdefault key (VList []) >> append_stored key (VTuple [value; level]).

(** Every method call a [SessionDict] accepts. *)
Inductive method :=
| M_setitem (key : string) (value : pyval)
| M_delitem (key : string)
| M_clear
| M_pop (key : string) (args : option pyval)
| M_popitem
| M_setdefault (key : string) (default : pyval)
| M_update (other : gmap string pyval)
| M_get (key : string) (default : pyval)
| M_getitem (key : string)
| M_contains (key : string)
| M_get_flashes (key : string)
| M_add_flash (value level : pyval) (key : string).

Definition discard {S A} (m : Eff S A) : Eff S unit := m >> ret tt.

Definition call_method (m : method) : Eff SessionDict unit :=
  match m with
  | M_setitem k v => __setitem__ k v
  | M_delitem k => __delitem__ k
  | M_clear => clear
  | M_pop k a => discard (pop k a)
  | M_popitem => discard popitem
  | M_setdefault k v => discard (setdefault k v)
  | M_update o => update o
  | M_get k v => discard (get k v)
  | M_getitem k => discard (__getitem__ k)
  | M_contains k => discard (__contains__ k)
  | M_get_flashes k => discard (get_flashes k)
  | M_add_flash v l k => add_flash v l k
  end.

Fixpoint call_methods (ms : list method) (self : SessionDict) : SessionDict :=
  match ms with
  | [] => self
  | m :: ms' => call_methods ms' (after (call_method m self))
  end.

(** ** Configuration, request and response *)

(** [webapp2_config.REQUIRED_VALUE] or a configured key. *)
Inductive secret :=
| REQUIRED_VALUE
| SecretKey (key : string).

(** A [max_age] argument: the marker [webapp2_config.DEFAULT_VALUE], or
    an explicit value, [None] meaning no limit. *)
Inductive max_age_arg :=
| DEFAULT_VALUE
| MaxAge (seconds : option Z).

Record Config := mkConfig {
  secret_key : secret;
  cookie_name : string;
  session_max_age : option Z;
  cookie_args : gmap string pyval
}.

Definition default_config : Config :=
  {| secret_key := REQUIRED_VALUE;
     cookie_name := "session";
     session_max_age := None;
     cookie_args := {[ "max_age" := VNone; "domain" := VNone; "path" := VStr "/";
                       "secure" := VNone; "httponly" := VBool false ]} |}.

(** [SessionStore.config_key], the module name. *)
Definition config_key : string := "webapp2_extras.sessions".

(** [_registry_key] *)
Definition _registry_key : string := "webapp2_extras.sessions.SessionStore".

(** What the module uses of a [webapp2.Request]: the inbound cookies,
    [request.app.config] and the registry, whose values are handles of
    stores. *)
Record Request := mkRequest {
  cookies : gmap string string;
  app_config : gmap string Config;
  registry : gmap string nat
}.

(** One [response.set_cookie(key, value, **kwargs)] call. *)
Record SetCookie := mkSetCookie {
  cookie_key : string;
  cookie_value : string;
  cookie_kwargs : gmap string pyval
}.

(** ** Factories and the store *)

Inductive factory_class :=
| BaseSessionFactory
| SecureCookieSessionFactory
| CustomBackendSessionFactory.

(** An instance of a session factory.  [session_store] and [session]
    are handles. *)
Record Factory := mkFactory {
  class_of : factory_class;
  name : string;
  session_store : nat;
  session_args : gmap string pyval;
  session : option nat
}.

(** The signer object, holding the key it was built with. *)
Record SecureCookieSerializer := mkSerializer { signer_key : string }.

(** A [SessionStore]; [serializer_slot] is where [cached_property]
    keeps the serializer once it has been built. *)
Record SessionStore := mkSessionStore {
  config : Config;
  sessions : gmap string Factory;
  serializer_slot : option SecureCookieSerializer
}.

(** The request being served, its response (the [set_cookie] calls made
    on it) and the objects alive during it. *)
Record World := mkWorld {
  request : Request;
  response : list SetCookie;
  stores : list SessionStore;
  dicts : list SessionDict
}.

Definition set_registry (w : World) (r : gmap string nat) : World :=
  {| request := {| cookies := cookies (request w); app_config := app_config (request w);
                   registry := r |};
     response := response w; stores := stores w; dicts := dicts w |}.
Definition set_response (w : World) (r : list SetCookie) : World :=
  {| request := request w; response := r; stores := stores w; dicts := dicts w |}.
Definition set_stores (w : World) (s : list SessionStore) : World :=
  {| request := request w; response := response w; stores := s; dicts := dicts w |}.
Definition set_dicts (w : World) (d : list SessionDict) : World :=
  {| request := request w; response := response w; stores := stores w; dicts := d |}.

Definition set_sessions (S : SessionStore) (m : gmap string Factory) : SessionStore :=
  {| config := config S; sessions := m; serializer_slot := serializer_slot S |}.
Definition set_serializer_slot (S : SessionStore) (s : option SecureCookieSerializer) : SessionStore :=
  {| config := config S; sessions := sessions S; serializer_slot := s |}.
Definition set_session (f : Factory) (s : option nat) : Factory :=
  {| class_of := class_of f; name := name f; session_store := session_store f;
     session_args := session_args f; session := s |}.
Definition set_session_args (f : Factory) (a : gmap string pyval) : Factory :=
  {| class_of := class_of f; name := name f; session_store := session_store f;
     session_args := a; session := session f |}.

Definition lift {S A} (r : outcome A) : Eff S A := fun s => (r, s).

(** Following handles. *)
Definition the_store (self : nat) : Eff World SessionStore :=
  fun w => match stores w !! self with
           | Some st => (Return st, w)
           | None => (Raise InvalidHandle, w)
           end.
Definition the_dict (l : nat) : Eff World SessionDict :=
  fun w => match dicts w !! l with
           | Some d => (Return d, w)
           | None => (Raise InvalidHandle, w)
           end.
(** A factory is reached through the store that tracks it. *)
Definition the_factory (self : nat * string) : Eff World Factory :=
  let* st := the_store (fst self) in
  match sessions st !! snd self with
  | Some f => ret f
  | None => raise InvalidHandle
  end.

Definition put_store (self : nat) (st : SessionStore) : Eff World unit :=
  modify (fun w => set_stores w (<[self := st]> (stores w))).
Definition put_factory (self : nat * string) (f : Factory) : Eff World unit :=
  let* st := the_store (fst self) in
  put_store (fst self) (set_sessions st (<[snd self := f]> (sessions st))).

(** Object creation: the new object gets the next free handle. *)
Definition new_dict (d : SessionDict) : Eff World nat :=
  fun w => (Return (length (dicts w)), set_dicts w (dicts w ++ [d])).
Definition new_store (st : SessionStore) : Eff World nat :=
  fun w => (Return (length (stores w)), set_stores w (stores w ++ [st])).

(** A [SessionDict] method called on the object behind a handle. *)
Definition on_dict {A} (l : nat) (m : Eff SessionDict A) : Eff World A :=
  fun w => match dicts w !! l with
           | Some d => let (r, d') := m d in (r, set_dicts w (<[l := d']> (dicts w)))
           | None => (Raise InvalidHandle, w)
           end.

(** Truth value of a string. *)
Definition str_bool (s : string) : bool :=
  match s with EmptyString => false | _ => true end.

(** Modelled from the spec: [securecookie.SecureCookieSerializer] is not
    among the sources.  "Attributes: secret key (opaque byte/string
    material), required non-empty — construction fails fast
    (configuration error) if absent." *)
Definition SecureCookieSerializer_init (key : secret) : outcome SecureCookieSerializer :=
  match key with
  | REQUIRED_VALUE => Raise ConfigError
  | SecretKey k => if str_bool k then Return {| signer_key := k |} else Raise ConfigError
  end.

(** The two methods of the serializer, which are not among the sources:
    [serialize(name, value)] and [deserialize(name, value, max_age)];
    the clock they read is part of the parameter. *)
Class SecureCookie := {
  serialize : SecureCookieSerializer -> string -> gmap string pyval -> string;
  deserialize : SecureCookieSerializer -> string -> string -> option Z ->
                option (gmap string pyval)
}.

(** [SessionStore.__init__(request)].  [request.app.config] is the
    framework's configuration object, which is not among the sources:
    [app_config] holds what the application configured, and a module
    the application did not configure has the module's
    [default_config] (in the spec's words, [secret_key] is "required,
    no default — fails at Signer construction if absent", and the other
    options have their defaults). *)
Definition SessionStore_init (req : Request) : outcome SessionStore :=
  match app_config req !! config_key with
  | Some c => Return {| config := c; sessions := ∅; serializer_slot := None |}
  | None => Return {| config := default_config; sessions := ∅; serializer_slot := None |}
  end.

(** [SessionStore.serializer], a [webapp2.cached_property]: built from
    [config['secret_key']] at the first access and kept. *)
Definition serializer (self : nat) : Eff World SecureCookieSerializer :=
  let* st := the_store self in
  match serializer_slot st with
  | Some sg => ret sg
  | None =>
      let* sg := lift (SecureCookieSerializer_init (secret_key (config st))) in
      put_store self (set_serializer_slot st (Some sg)) >>
      ret sg
  end.

(** [BaseSessionFactory.__init__(name, session_store)], shared by the
    three classes. *)
Definition BaseSessionFactory_init (cls : factory_class) (nm : string) (store : nat)
    : Eff World Factory :=
  let* st := the_store store in
  ret {| class_of := cls; name := nm; session_store := store;
         session_args := cookie_args (config st); session := None |}.

Section Store.
Context {signer : SecureCookie}.

(** [SessionStore.get_secure_cookie(name, max_age)] *)
Definition get_secure_cookie (self : nat) (nm : string) (max_age : max_age_arg)
    : Eff World (option (gmap string pyval)) :=
  let* st := the_store self in
  let max_age := match max_age with
                 | DEFAULT_VALUE => session_max_age (config st)
                 | MaxAge m => m
                 end in
  let* value := gets (fun w => cookies (request w) !! nm) in
  match value with
  | Some v =>
      if str_bool v then
        let* sg := serializer self in
        ret (deserialize sg nm v max_age)
      else ret None
  | None => ret None
  end.

(** [SessionStore.save_secure_cookie(response, name, value, **kwargs)] *)
Definition save_secure_cookie (self : nat) (nm : string) (value : gmap string pyval)
    (kwargs : gmap string pyval) : Eff World unit :=
  let* sg := serializer self in
  let value := serialize sg nm value in
  modify (fun w => set_response w (response w ++
    [{| cookie_key := nm; cookie_value := value; cookie_kwargs := kwargs |}])).

(** [SecureCookieSessionFactory.get_session(max_age)] *)
Definition SecureCookieSessionFactory_get_session (self : nat * string)
    (max_age : max_age_arg) : Eff World nat :=
  let* f := the_factory self in
  match session f with
  | None =>
      let* data := get_secure_cookie (session_store f) (name f) max_age in
      let is_new := match data with None => true | Some _ => false end in
      let* l := new_dict (SessionDict_init self data is_new) in
      let* f := the_factory self in
      put_factory self (set_session f (Some l)) >>
      ret l
  | Some l => ret l
  end.

(** [SecureCookieSessionFactory.save_session(response)] *)
Definition SecureCookieSessionFactory_save_session (self : nat * string) : Eff World unit :=
  let* f := the_factory self in
  match session f with
  | None => ret tt
  | Some l =>
      let* d := the_dict l in
      if negb (dict.__bool__ (items d)) || negb (modified d) then ret tt
      else save_secure_cookie (session_store f) (name f) (items d) (session_args f)
  end.

(** [CustomBackendSessionFactory._get_by_sid(sid)] *)
Definition _get_by_sid (self : nat * string) (sid : pyval) : Eff World nat :=
  raise NotImplementedError.

(** [CustomBackendSessionFactory.get_session(max_age)] *)
Definition CustomBackendSessionFactory_get_session (self : nat * string)
    (max_age : max_age_arg) : Eff World nat :=
  let* f := the_factory self in
  match session f with
  | None =>
      let* data := get_secure_cookie (session_store f) (name f) max_age in
      let sid := match data with
                 | Some d => if dict.__bool__ d then dict.get "_sid" VNone d else VNone
                 | None => VNone
                 end in
      let* l := _get_by_sid self sid in
      let* f := the_factory self in
      put_factory self (set_session f (Some l)) >>
      ret l
  | Some l => ret l
  end.

(** [container.get_session(max_age=...)] dispatched on the class. *)
Definition Factory_get_session (self : nat * string) (max_age : max_age_arg) : Eff World nat :=
  let* f := the_factory self in
  match class_of f with
  | BaseSessionFactory => raise NotImplementedError
  | SecureCookieSessionFactory => SecureCookieSessionFactory_get_session self max_age
  | CustomBackendSessionFactory => CustomBackendSessionFactory_get_session self max_age
  end.

(** [session.save_session(response)] dispatched on the class. *)
Definition Factory_save_session (self : nat * string) : Eff World unit :=
  let* f := the_factory self in
  match class_of f with
  | SecureCookieSessionFactory => SecureCookieSessionFactory_save_session self
  | BaseSessionFactory | CustomBackendSessionFactory => raise NotImplementedError
  end.

(** [SessionStore._get_session_container(name, factory)]; the result
    is the handle of [self.sessions[name]]. *)
Definition _get_session_container (self : nat) (nm : string) (factory : factory_class)
    : Eff World (nat * string) :=
  let* st := the_store self in
  match sessions st !! nm with
  | None =>
      let* f := BaseSessionFactory_init factory nm self in
      put_store self (set_sessions st (<[nm := f]> (sessions st)))
  | Some _ => ret tt
  end >>
  ret (self, nm).

(** [SessionStore.get_session(name, max_age, factory)] *)
Definition get_session (self : nat) (nm : option string) (max_age : max_age_arg)
    (factory : factory_class) : Eff World nat :=
  let* st := the_store self in
  let nm := match nm with
            | Some n => if str_bool n then n else cookie_name (config st)
            | None => cookie_name (config st)
            end in
  let max_age := match max_age with
                 | DEFAULT_VALUE => MaxAge (session_max_age (config st))
                 | MaxAge m => MaxAge m
                 end in
  let* cont := _get_session_container self nm factory in
  Factory_get_session cont max_age.

(** [SessionStore.set_secure_cookie(name, value, **kwargs)] *)
Definition set_secure_cookie (self : nat) (nm : string) (value : pyval)
    (kwargs : gmap string pyval) : Eff World unit :=
  match value with
  | VDict d =>
      let* cont := _get_session_container self nm SecureCookieSessionFactory in
      let* l := Factory_get_session cont DEFAULT_VALUE in
      on_dict l (update d) >>
      let* f := the_factory cont in
      put_factory cont (set_session_args f (kwargs ∪ session_args f))
  | _ => raise (AssertionError "Secure cookie values must be a dict.")
  end.

Fixpoint for_each {A} (l : list A) (body : A -> Eff World unit) : Eff World unit :=
  match l with
  | [] => ret tt
  | x :: l' => body x >> for_each l' body
  end.

(** [SessionStore.save_sessions(response)] *)
Definition save_sessions (self : nat) : Eff World unit :=
  let* st := the_store self in
  for_each (map_to_list (sessions st)) (fun '(nm, _) => Factory_save_session (self, nm)).

(** [get_store(factory, key, request)]: [factory] builds the store
    object from the request. *)
Definition get_store (factory : Request -> outcome SessionStore) (key : string)
    : Eff World nat :=
  let* store := gets (fun w => registry (request w) !! key) in
  match store with
  | Some s => ret s
  | None =>
      let* st := (fun w => (factory (request w), w)) in
      let* s := new_store st in
      modify (fun w => set_registry w (<[key := s]> (registry (request w)))) >>
      ret s
  end.

(** [set_store(store, key, request)] *)
Definition set_store (store : nat) (key : string) : Eff World unit :=
  modify (fun w => set_registry w (<[key := store]> (registry (request w)))).

(** The calls a handler can make during a request. *)
Inductive call :=
| Call_get_store (factory : Request -> outcome SessionStore) (key : string)
| Call_set_store (store : nat) (key : string)
| Call_get_session (self : nat) (nm : option string) (max_age : max_age_arg)
    (factory : factory_class)
| Call_get_secure_cookie (self : nat) (nm : string) (max_age : max_age_arg)
| Call_set_secure_cookie (self : nat) (nm : string) (value : pyval)
    (kwargs : gmap string pyval)
| Call_save_secure_cookie (self : nat) (nm : string) (value : gmap string pyval)
    (kwargs : gmap string pyval)
| Call_save_sessions (self : nat)
| Call_method (l : nat) (m : method).

Definition run_call (c : call) : Eff World unit :=
  match c with
  | Call_get_store factory key => discard (get_store factory key)
  | Call_set_store store key => set_store store key
  | Call_get_session self nm max_age factory => discard (get_session self nm max_age factory)
  | Call_get_secure_cookie self nm max_age => discard (get_secure_cookie self nm max_age)
  | Call_set_secure_cookie self nm value kwargs => set_secure_cookie self nm value kwargs
  | Call_save_secure_cookie self nm value kwargs => save_secure_cookie self nm value kwargs
  | Call_save_sessions self => save_sessions self
  | Call_method l m => on_dict l (call_method m)
  end.

Fixpoint run_calls (cs : list call) (w : World) : World :=
  match cs with
  | [] => w
  | c :: cs' => run_calls cs' (after (run_call c w))
  end.

End Store.

(** ** Orders along which objects evolve during a request *)

(** A session dictionary keeps its owner and its [new] slot, and its
    [modified] flag never goes back to [False]. *)
Definition dict_le (d d' : SessionDict) : Prop :=
  container d' = container d ∧ new d' = new d ∧
  (modified d = true -> modified d' = true).

(** A factory keeps its class, name and store, and a session it has
    resolved stays the one it hands out. *)
Definition factory_le (f f' : Factory) : Prop :=
  class_of f' = class_of f ∧ name f' = name f ∧ session_store f' = session_store f ∧
  (forall l, session f = Some l -> session f' = Some l).

(** A store keeps its configuration and the factories it tracks. *)
Definition store_le (st st' : SessionStore) : Prop :=
  config st' = config st ∧
  (forall nm f, sessions st !! nm = Some f ->
     exists f', sessions st' !! nm = Some f' ∧ factory_le f f').

(** The request keeps its cookies and configuration, cookies set on
    the response stay set, and objects stay alive and evolve as above. *)
Definition world_le (w w' : World) : Prop :=
  cookies (request w') = cookies (request w) ∧
  app_config (request w') = app_config (request w) ∧
  response w `prefix_of` response w' ∧
  (forall i st, stores w !! i = Some st ->
     exists st', stores w' !! i = Some st' ∧ store_le st st') ∧
  (forall l d, dicts w !! l = Some d ->
     exists d', dicts w' !! l = Some d' ∧ dict_le d d').

(** Worlds that track the same factories in the same state and hold the
    same dictionaries: what reading a cookie leaves untouched. *)
Definition same_sessions (w w' : World) : Prop :=
  dicts w' = dicts w ∧ response w' = response w ∧ request w' = request w ∧
  length (stores w') = length (stores w) ∧
  (forall i st, stores w !! i = Some st ->
     exists st', stores w' !! i = Some st' ∧
                 sessions st' = sessions st ∧ config st' = config st).

(** A computation every run of which moves the world along [R]. *)
Definition steps (R : World -> World -> Prop) {A} (m : Eff World A) : Prop :=
  forall w, R w (after (m w)).

(** What the arguments of a call stand for: the session name, with
    the configured [cookie_name] for a missing or empty one, and the
    max-age with its three cases (an explicit value, an explicit
    [None], or the marker that stands for the configured
    [session_max_age]).  The methods above do not use these; the
    theorems compare them with what the methods compute. *)
Definition resolved_name (st : SessionStore) (nm : option string) : string :=
  match nm with
  | Some n => if str_bool n then n else cookie_name (config st)
  | None => cookie_name (config st)
  end.
Definition effective_max_age (st : SessionStore) (max_age : max_age_arg) : option Z :=
  match max_age with
  | DEFAULT_VALUE => session_max_age (config st)
  | MaxAge m => m
  end.

(** The store [self] tracks under [nm] a factory whose session has been
    resolved to the dictionary [l]. *)
Definition tracked (w : World) (self : nat) (nm : string) (l : nat) : Prop :=
  exists st f, stores w !! self = Some st ∧ sessions st !! nm = Some f ∧
               class_of f <> BaseSessionFactory ∧ session f = Some l.

(** The world after [SecureCookieSessionFactory.get_session] has
    resolved a session from [data]: the new dictionary is appended and
    the factory points to it. *)
Definition session_resolved (w1 : World) (self : nat) (nm : string) (st1 : SessionStore)
    (f : Factory) (data : option (gmap string pyval)) : World :=
  let l := length (dicts w1) in
  let is_new := match data with None => true | Some _ => false end in
  set_stores (set_dicts w1 (dicts w1 ++ [SessionDict_init (self, nm) data is_new]))
    (<[self := set_sessions st1 (<[nm := set_session f (Some l)]> (sessions st1))]>
       (stores w1)).

(** Worlds with the same request object, registry included. *)
Definition same_request (w w' : World) : Prop := request w' = request w.

(** A handler call that does not rebind [key] in the registry. *)
Definition leaves_key (key : string) (c : call) : Prop :=
  match c with
  | Call_set_store _ key' => key' <> key
  | _ => True
  end.

(** A computation that raises nothing but exceptions in [E]. *)
Definition raises_only (E : exn -> Prop) {A} (m : Eff World A) : Prop :=
  forall w e, result (m w) = Raise e -> E e.

(** Exceptions other than a failed [assert]. *)
Definition not_assertion (e : exn) : Prop := forall msg, e <> AssertionError msg.

(** The world after [set_secure_cookie] has merged [value] into the
    dictionary [d0] behind [l] and [kwargs] into the arguments of the
    factory [f] tracked under [nm]. *)
Definition cookie_merged (w : World) (self : nat) (nm : string) (st : SessionStore)
    (f : Factory) (l : nat) (d0 : SessionDict) (value kwargs : gmap string pyval) : World :=
  set_stores (set_dicts w (<[l := on_update (set_items d0 (value ∪ items d0))]> (dicts w)))
    (<[self := set_sessions st (<[nm := set_session_args f (kwargs ∪ session_args f)]>
                                  (sessions st))]> (stores w)).

(** ** A concrete request, to run the model on *)

(** A stand-in for the serializer, for running examples only: a token
    names the key, the cookie and the keys of the value; one inbound
    token is recognised, signed 100 seconds ago. *)
Definition example_signer : SecureCookie :=
  {| serialize sg nm value :=
       signer_key sg +:+ ":" +:+ nm +:+ ":" +:+ String.concat "," (map_to_list value).*1;
     deserialize sg nm token max_age :=
       if String.eqb token "alice-token" then
         match max_age with
         | Some m => if (m <? 100)%Z then None else Some {[ "user" := VStr "alice" ]}
         | None => Some {[ "user" := VStr "alice" ]}
         end
       else None |}.

Definition example_config : Config :=
  {| secret_key := SecretKey "s3cr3t";
     cookie_name := "session";
     session_max_age := Some 50%Z;
     cookie_args := cookie_args default_config |}.

(** A request that carries the recognised token under ["session"]. *)
Definition example_world : World :=
  {| request := {| cookies := {[ "session" := "alice-token" ]};
                   app_config := {[ config_key := example_config ]};
                   registry := ∅ |};
     response := []; stores := []; dicts := [] |}.

(** The same request for an application that never set [secret_key]. *)
Definition unconfigured_world : World :=
  {| request := {| cookies := {[ "session" := "alice-token" ]};
                   app_config := {[ config_key := default_config ]};
                   registry := ∅ |};
     response := []; stores := []; dicts := [] |}.

(** The handler fetches the session (read from the cookie, explicitly
    without age limit) and clears it. *)
Definition logged_out : World :=
  run_calls (signer := example_signer)
    [Call_get_store SessionStore_init _registry_key;
     Call_get_session 0 None (MaxAge None) SecureCookieSessionFactory;
     Call_method 0 M_clear] example_world.

(** The request once a store has been obtained for it. *)
Definition served : World :=
  after (get_store SessionStore_init _registry_key example_world).
Definition unconfigured_served : World :=
  after (get_store SessionStore_init _registry_key unconfigured_world).

(** The request once the handler has asked for the session "prefs"
    with the abstract factory, which raised. *)
Definition misbound : World :=
  after (get_session (signer := example_signer) 0 (Some "prefs") DEFAULT_VALUE
           BaseSessionFactory served).

(** ** More example worlds *)

(** The request once the handler has fetched the session. *)
Definition fetched : World :=
  after (get_session (signer := example_signer) 0 None (MaxAge None)
           SecureCookieSessionFactory served).

(** A request for an application that has no configuration at all. *)
Definition bare_world : World :=
  {| request := {| cookies := ∅; app_config := ∅; registry := ∅ |};
     response := []; stores := []; dicts := [] |}.

(** ** More orders and predicates on worlds *)

(** A store keeps its configuration, and its serializer slot either
    stays as it is or goes from empty to the serializer built from the
    store's key. *)
Definition slot_le (st st' : SessionStore) : Prop :=
  config st' = config st ∧
  (serializer_slot st' = serializer_slot st ∨
   serializer_slot st = None ∧
   exists sg, SecureCookieSerializer_init (secret_key (config st)) = Return sg ∧
              serializer_slot st' = Some sg).

Definition slots_le (w w' : World) : Prop :=
  forall i st, stores w !! i = Some st ->
    exists st', stores w' !! i = Some st' ∧ slot_le st st'.

(** What saving may change: cookies are added to the response and a
    serializer may be built; dictionaries, factories and the request
    stay as they are. *)
Definition only_saves (w w' : World) : Prop :=
  dicts w' = dicts w ∧ request w' = request w ∧
  response w `prefix_of` response w' ∧
  (forall i st, stores w !! i = Some st ->
     exists st', stores w' !! i = Some st' ∧
                 sessions st' = sessions st ∧ config st' = config st).

(** The store [self] tracks under [nm] a factory of class [cls]. *)
Definition bound_to (w : World) (self : nat) (nm : string) (cls : factory_class) : Prop :=
  exists st f, stores w !! self = Some st ∧ sessions st !! nm = Some f ∧ class_of f = cls.

(** Worlds with the same response. *)
Definition same_response (w w' : World) : Prop := response w' = response w.

(** The two calls that save. *)
Definition is_save (c : call) : bool :=
  match c with
  | Call_save_sessions _ | Call_save_secure_cookie _ _ _ _ => true
  | _ => false
  end.

(** ** Session ids of the custom backends *)

(** A character of the class [[a-f0-9]]. *)
Definition sid_char (c : Ascii.ascii) : bool :=
  let n := Ascii.nat_of_ascii c in
  (Nat.leb 48 n && Nat.leb n 57) || (Nat.leb 97 n && Nat.leb n 102).

(** [[a-f0-9]{n}] at the head of [s]: what is left of [s], if it
    matches. *)
Fixpoint match_sid_chars (n : nat) (s : string) : option string :=
  match n with
  | 0 => Some s
  | S n' =>
      match s with
      | String c s' => if sid_char c then match_sid_chars n' s' else None
      | EmptyString => None
      end
  end.

Definition newline : string := String (Ascii.ascii_of_nat 10) EmptyString.

(** [_sid_re.match(sid) is not None] for
    [_sid_re = re.compile(r'^[a-f0-9]{32}$')]: without [re.MULTILINE],
    [$] matches at the end of the string and just before a newline that
    ends it. *)
Definition _sid_re_match (sid : string) : bool :=
  match match_sid_chars 32 sid with
  | Some rest => bool_decide (rest = "") || bool_decide (rest = newline)
  | None => false
  end.

(** [CustomBackendSessionFactory._is_valid_sid(sid)], for a [sid] that
    is [None] or a string: [sid and self._sid_re.match(sid) is not None]
    gives back a false [sid] itself. *)
Definition _is_valid_sid (sid : option string) : pyval :=
  match sid with
  | None => VNone
  | Some s => if str_bool s then VBool (_sid_re_match s) else VStr s
  end.

(** Truth value of the values [_is_valid_sid] returns. *)
Definition truth (v : pyval) : bool :=
  match v with
  | VBool b => b
  | VStr s => str_bool s
  | _ => false
  end.

(** The calls [add_flash(value, level, key)] for a list of messages. *)
Definition add_flashes (key : string) (messages : list (pyval * pyval)) : list method :=
  map (fun m => M_add_flash m.1 m.2 key) messages.

(** * Properties of [SessionDict] *)

Lemma set_items_id self : set_items self (items self) = self.
Proof. by destruct self. Qed.

Lemma contains_is_Some key (d : gmap string pyval) :
  dict.__contains__ key d = true <-> is_Some (d !! key).
Proof. unfold dict.__contains__. by rewrite bool_decide_eq_true. Qed.

Lemma contains_present key (d : gmap string pyval) v :
  d !! key = Some v -> dict.__contains__ key d = true.
Proof. intros H. apply contains_is_Some. eauto. Qed.

Lemma contains_absent key (d : gmap string pyval) :
  d !! key = None -> dict.__contains__ key d = false.
Proof.
  intros H. unfold dict.__contains__. apply bool_decide_eq_false.
  rewrite H. by intros [? ?].
Qed.

Lemma bool_false_empty (d : gmap string pyval) : dict.__bool__ d = false <-> d = ∅.
Proof.
  unfold dict.__bool__. rewrite negb_false_iff, Nat.eqb_eq. apply map_size_empty_iff.
Qed.

(** What each call does, in closed form. *)

Lemma setitem_eq key value self :
  __setitem__ key value self
  = (Return tt, on_update (set_items self (<[key := value]> (items self)))).
Proof. reflexivity. Qed.

Lemma delitem_present key v self :
  items self !! key = Some v ->
  __delitem__ key self = (Return tt, on_update (set_items self (delete key (items self)))).
Proof.
  intros H. unfold __delitem__, _UpdateDictMixin.__delitem__, calls_update, dict.__delitem__.
  by rewrite H.
Qed.

Lemma delitem_absent key self :
  items self !! key = None -> __delitem__ key self = (Raise (KeyError key), self).
Proof.
  intros H. unfold __delitem__, _UpdateDictMixin.__delitem__, calls_update, dict.__delitem__.
  by rewrite H, set_items_id.
Qed.

Lemma clear_eq self : clear self = (Return tt, on_update (set_items self ∅)).
Proof. reflexivity. Qed.

Lemma update_eq other self :
  update other self = (Return tt, on_update (set_items self (other ∪ items self))).
Proof. reflexivity. Qed.

Lemma setdefault_present key default v self :
  items self !! key = Some v ->
  setdefault key default self = (Return v, on_update self).
Proof.
  intros H. unfold setdefault, _UpdateDictMixin.setdefault, calls_update, dict.setdefault.
  by rewrite H, set_items_id.
Qed.

Lemma setdefault_absent key default self :
  items self !! key = None ->
  setdefault key default self
  = (Return default, on_update (set_items self (<[key := default]> (items self)))).
Proof.
  intros H. unfold setdefault, _UpdateDictMixin.setdefault, calls_update, dict.setdefault.
  by rewrite H.
Qed.

Lemma pop_present key args v self :
  items self !! key = Some v ->
  pop key args self = (Return v, on_update (set_items self (delete key (items self)))).
Proof.
  intros H. unfold pop. rewrite (contains_present _ _ _ H).
  unfold _UpdateDictMixin.pop, calls_update, dict.pop. by rewrite H.
Qed.

Lemma pop_absent_default key default self :
  items self !! key = None -> pop key (Some default) self = (Return default, self).
Proof. intros H. unfold pop. by rewrite (contains_absent _ _ H). Qed.

Lemma pop_absent_no_default key self :
  items self !! key = None -> pop key None self = (Raise (KeyError key), self).
Proof. intros H. unfold pop. by rewrite (contains_absent _ _ H). Qed.

Lemma calls_update_le {A} (m : Eff (gmap string pyval) A) self :
  dict_le self (after (calls_update m self)).
Proof.
  unfold calls_update, dict_le, after. destruct (m (items self)) as [[rv|e] d]; simpl; auto.
Qed.

Lemma dict_le_refl d : dict_le d d.
Proof. unfold dict_le; auto. Qed.

Lemma dict_le_trans d1 d2 d3 : dict_le d1 d2 -> dict_le d2 d3 -> dict_le d1 d3.
Proof. unfold dict_le. intros (-> & -> & H1) (-> & -> & H2). auto. Qed.

Lemma pop_le key args self : dict_le self (after (pop key args self)).
Proof.
  unfold pop. destruct (dict.__contains__ key (items self)).
  - apply calls_update_le.
  - destruct args; apply dict_le_refl.
Qed.

Lemma append_stored_le key x self : dict_le self (after (append_stored key x self)).
Proof.
  unfold append_stored, dict_le, after.
  destruct (items self !! key) as [[]|]; simpl; auto.
Qed.

Lemma bind_after_le {A B} (m : Eff SessionDict A) (k : A -> Eff SessionDict B) self :
  dict_le self (after (m self)) ->
  (forall a d, dict_le d (after (k a d))) ->
  dict_le self (after (bind m k self)).
Proof.
  intros Hm Hk. unfold bind, after in *. destruct (m self) as [[a|e] d]; simpl in *.
  - eapply dict_le_trans; [exact Hm | apply Hk].
  - exact Hm.
Qed.

(** No method call resets the flag or rebinds the owner. *)
Lemma call_method_le m self : dict_le self (after (call_method m self)).
Proof.
  destruct m; cbn [call_method]; unfold discard, add_flash, get_flashes.
  all: try (apply calls_update_le).
  all: apply bind_after_le;
    [ first [ apply calls_update_le | apply pop_le | apply dict_le_refl ]
    | intros; first [ apply append_stored_le | apply dict_le_refl ] ].
Qed.

Lemma call_methods_le ms self : dict_le self (call_methods ms self).
Proof.
  revert self. induction ms as [|m ms IH]; intros self; simpl.
  - apply dict_le_refl.
  - eapply dict_le_trans; [apply call_method_le | apply IH].
Qed.

(** ** Mutation tracking *)

(** C2, the call that escapes the claim: deleting a key that a fresh
    container does not hold raises [KeyError] and leaves the flag
    [False], so "after [__delitem__], [modified] is true" fails there. *)
Lemma delitem_missing_key_keeps_flag :
  let self := SessionDict_init (0, "session") None true in
  __delitem__ "missing" self = (Raise (KeyError "missing"), self) /\
  modified (after (__delitem__ "missing" self)) = false.
Proof. split; reflexivity. Qed.

(** C3, the call that escapes the claim: [pop] of an absent key with a
    default returns the default and does not mark the container. *)
Lemma pop_missing_key_with_default_keeps_flag :
  let self := SessionDict_init (0, "session") None true in
  pop "missing" (Some (VInt 0)) self = (Return (VInt 0), self) /\
  modified (after (pop "missing" (Some (VInt 0)) self)) = false.
Proof. split; reflexivity. Qed.

(** C3 (amended): for every [SessionDict] and every key absent from it,
    [pop(key, default)] returns the default and leaves the mapping and
    the [modified] flag as they were. *)
Theorem pop_absent_key_returns_default self key default :
  items self !! key = None ->
  pop key (Some default) self = (Return default, self).
Proof. apply pop_absent_default. Qed.

Lemma pop_absent_key_returns_default_witness :
  let self := SessionDict_init (0, "session") (Some {[ "user" := VStr "alice" ]}) false in
  pop "cart" (Some (VList [])) self = (Return (VList []), self).
Proof. intros self. apply pop_absent_key_returns_default. reflexivity. Defined.

(** C10, the call that escapes the claim: [__delitem__] of a key the
    container does not hold leaves the contents unchanged and does not
    set the flag. *)
Lemma delitem_without_change_keeps_flag :
  let self := SessionDict_init (0, "session") (Some {[ "user" := VStr "alice" ]}) false in
  items (after (__delitem__ "cart" self)) = items self /\
  modified (after (__delitem__ "cart" self)) = false.
Proof. split; reflexivity. Qed.

(** C10 (amended): the flag tracks calls, not content change.  Every
    call of [__setitem__], [clear], [update] or [setdefault] sets
    [modified] to [True], also when the contents stay the same ([update]
    with an empty mapping, [clear] on an empty container, [setdefault]
    on a present key, setting a key to its current value).
    [__delitem__] sets it whenever it returns, that is on a present key;
    on an absent key it raises [KeyError] and leaves contents and flag
    unchanged. *)
Theorem modified_tracks_calls :
  (forall self key value, modified (after (__setitem__ key value self)) = true) /\
  (forall self, modified (after (clear self)) = true) /\
  (forall self other, modified (after (update other self)) = true) /\
  (forall self key default, modified (after (setdefault key default self)) = true) /\
  (forall self key, is_Some (items self !! key) ->
     result (__delitem__ key self) = Return tt /\
     modified (after (__delitem__ key self)) = true) /\
  (forall self key, items self !! key = None ->
     __delitem__ key self = (Raise (KeyError key), self)) /\
  (forall self, items (after (update ∅ self)) = items self /\
     modified (after (update ∅ self)) = true) /\
  (forall self, items self = ∅ ->
     items (after (clear self)) = items self /\ modified (after (clear self)) = true) /\
  (forall self key default, is_Some (items self !! key) ->
     items (after (setdefault key default self)) = items self /\
     modified (after (setdefault key default self)) = true) /\
  (forall self key value, items self !! key = Some value ->
     items (after (__setitem__ key value self)) = items self /\
     modified (after (__setitem__ key value self)) = true).
Proof.
  assert (Hsetdefault : forall self key default,
             modified (after (setdefault key default self)) = true).
  { intros self key default. destruct (items self !! key) as [v|] eqn:Hk.
    - by rewrite (setdefault_present _ _ _ _ Hk).
    - by rewrite (setdefault_absent _ _ _ Hk). }
  split; [reflexivity |].
  split; [reflexivity |].
  split; [reflexivity |].
  split; [exact Hsetdefault |].
  split; [intros self key [v Hv]; by rewrite (delitem_present _ _ _ Hv) |].
  split; [intros self key H; by apply delitem_absent |].
  split.
  { intros self. rewrite update_eq. simpl. split; [apply (left_id_L ∅ (∪)) | done]. }
  split; [intros self H; by rewrite H |].
  split.
  { intros self key default [v Hv]. by rewrite (setdefault_present _ _ _ _ Hv). }
  intros self key value H. rewrite setitem_eq. simpl. split; [by apply insert_id | done].
Qed.

Lemma modified_tracks_calls_witness :
  let self := SessionDict_init (0, "session") (Some {[ "user" := VStr "alice" ]}) false in
  (result (__delitem__ "user" self) = Return tt /\
   modified (after (__delitem__ "user" self)) = true) /\
  __delitem__ "cart" self = (Raise (KeyError "cart"), self) /\
  (items (after (clear (after (clear self)))) = items (after (clear self)) /\
   modified (after (clear (after (clear self)))) = true) /\
  (items (after (setdefault "user" VNone self)) = items self /\
   modified (after (setdefault "user" VNone self)) = true) /\
  (items (after (__setitem__ "user" (VStr "alice") self)) = items self /\
   modified (after (__setitem__ "user" (VStr "alice") self)) = true).
Proof.
  intros self.
  destruct modified_tracks_calls
    as (_ & _ & _ & _ & Hdel & Hdel' & _ & Hclear & Hsetdefault & Hset).
  split; [apply Hdel; vm_compute; eauto |].
  split; [apply Hdel'; reflexivity |].
  split; [apply Hclear; reflexivity |].
  split; [apply Hsetdefault; vm_compute; eauto |].
  apply Hset; reflexivity.
Defined.

(** ** Flash messages *)

Lemma add_flash_absent self value level key :
  items self !! key = None ->
  add_flash value level key self
  = (Return tt, on_update (set_items self
                             (<[key := VList [VTuple [value; level]]]> (items self)))).
Proof.
  intros H. unfold add_flash, bind. rewrite (setdefault_absent _ _ _ H).
  unfold append_stored. simpl. rewrite lookup_insert_eq. simpl.
  by rewrite insert_insert_eq.
Qed.

Lemma add_flash_present self value level key l :
  items self !! key = Some (VList l) ->
  add_flash value level key self
  = (Return tt, on_update (set_items self
                             (<[key := VList (l ++ [VTuple [value; level]])]> (items self)))).
Proof.
  intros H. unfold add_flash, bind. rewrite (setdefault_present _ _ _ _ H).
  unfold append_stored. simpl. by rewrite H.
Qed.

(** C5: [add_flash(value, level, key)] appends [(value, level)] to the
    list stored under [key], creating the list if absent, and marks the
    container modified; [get_flashes(key)] returns and removes what is
    stored under [key], and returns the empty list without marking the
    container when the key is absent; hence after
    [add_flash("saved!", "info")] a first [get_flashes()] returns
    [[("saved!", "info")]] and a second one returns [[]]. *)
Theorem flash_messages :
  (forall self value level key, items self !! key = None ->
     add_flash value level key self
     = (Return tt, on_update (set_items self
                                (<[key := VList [VTuple [value; level]]]> (items self))))) /\
  (forall self value level key l, items self !! key = Some (VList l) ->
     add_flash value level key self
     = (Return tt, on_update (set_items self
                                (<[key := VList (l ++ [VTuple [value; level]])]> (items self))))) /\
  (forall self, modified (on_update self) = true) /\
  (forall self key v, items self !! key = Some v ->
     get_flashes key self
     = (Return v, on_update (set_items self (delete key (items self))))) /\
  (forall self key, items self !! key = None ->
     get_flashes key self = (Return (VList []), self)) /\
  (forall self, items self !! _flash = None \/ items self !! _flash = Some (VList []) ->
     let r1 := add_flash (VStr "saved!") (VStr "info") _flash self in
     let r2 := get_flashes _flash (after r1) in
     let r3 := get_flashes _flash (after r2) in
     result r1 = Return tt /\ modified (after r1) = true /\
     result r2 = Return (VList [VTuple [VStr "saved!"; VStr "info"]]) /\
     result r3 = Return (VList [])).
Proof.
  split; [exact add_flash_absent |].
  split; [exact add_flash_present |].
  split; [reflexivity |].
  split; [intros; by apply pop_present |].
  split; [intros; by apply pop_absent_default |].
  intros self H r1 r2 r3.
  assert (r1 = (Return tt, on_update (set_items self
            (<[_flash := VList [VTuple [VStr "saved!"; VStr "info"]]]> (items self))))) as E1.
  { destruct H as [H|H]; [by apply add_flash_absent |].
    subst r1. by rewrite (add_flash_present _ _ _ _ _ H). }
  assert (r2 = (Return (VList [VTuple [VStr "saved!"; VStr "info"]]),
                on_update (set_items (after r1) (delete _flash (items (after r1)))))) as E2.
  { subst r2. unfold get_flashes. apply pop_present. rewrite E1. simpl.
    apply lookup_insert_eq. }
  assert (r3 = (Return (VList []), after r2)) as E3.
  { subst r3. unfold get_flashes. apply pop_absent_default. rewrite E2. simpl.
    apply lookup_delete_eq. }
  rewrite E3, E2, E1. simpl. auto.
Qed.

Lemma flash_messages_witness :
  let self := SessionDict_init (0, "session") (Some {[ "user" := VStr "alice" ]}) false in
  let r1 := add_flash (VStr "saved!") (VStr "info") _flash self in
  let r2 := get_flashes _flash (after r1) in
  let r3 := get_flashes _flash (after r2) in
  (result r1 = Return tt /\ modified (after r1) = true /\
   result r2 = Return (VList [VTuple [VStr "saved!"; VStr "info"]]) /\
   result r3 = Return (VList [])) /\
  get_flashes _flash self = (Return (VList []), self) /\
  modified (after (get_flashes _flash self)) = false.
Proof.
  destruct flash_messages as (_ & _ & _ & _ & Habsent & Hscenario).
  split; [apply Hscenario; left; reflexivity |].
  split; [apply Habsent; reflexivity | reflexivity].
Defined.

(** ** More on the dictionary methods *)

Lemma popitem_empty self :
  items self = ∅ ->
  popitem self = (Raise (KeyError "popitem(): dictionary is empty"), self).
Proof.
  intros H. unfold popitem, _UpdateDictMixin.popitem, calls_update, dict.popitem.
  rewrite H, map_to_list_empty, <- H. by rewrite set_items_id.
Qed.

(** X1: [popitem] on an empty container raises [KeyError] and leaves
    the container, flag included, as it was; on a container that holds
    something it removes exactly one item, returns it as a (key, value)
    pair, and marks the container modified. *)
Theorem popitem_removes_one_item self :
  (items self = ∅ ->
   popitem self = (Raise (KeyError "popitem(): dictionary is empty"), self)) /\
  (items self <> ∅ ->
   exists k v,
     items self !! k = Some v /\
     popitem self
     = (Return (VTuple [VStr k; v]), on_update (set_items self (delete k (items self)))) /\
     size (items (after (popitem self))) + 1 = size (items self) /\
     modified (after (popitem self)) = true).
Proof.
  split; [apply popitem_empty |]. intros Hne.
  destruct (map_to_list (items self)) as [|[k v] rest] eqn:E.
  { by apply map_to_list_empty_iff in E. }
  assert (items self !! k = Some v) as Hk.
  { apply elem_of_map_to_list. rewrite E. left. }
  assert (popitem self
          = (Return (VTuple [VStr k; v]),
             on_update (set_items self (delete k (items self))))) as Hpop.
  { unfold popitem, _UpdateDictMixin.popitem, calls_update, dict.popitem. by rewrite E. }
  exists k, v. split; [done |]. split; [done |]. rewrite Hpop. simpl.
  split; [| done]. rewrite (map_size_delete_Some k (items self)) by eauto.
  assert (size (items self) <> 0) by (by apply map_size_non_empty_iff). lia.
Qed.

Lemma popitem_removes_one_item_witness :
  let empty := SessionDict_init (0, "session") None true in
  let self := after (__setitem__ "user" (VStr "alice") empty) in
  popitem empty = (Raise (KeyError "popitem(): dictionary is empty"), empty) /\
  modified (after (popitem empty)) = false /\
  exists k v, items self !! k = Some v /\
              result (popitem self) = Return (VTuple [VStr k; v]) /\
              size (items (after (popitem self))) + 1 = size (items self).
Proof.
  intros empty self. destruct (popitem_removes_one_item empty) as [Hempty _].
  destruct (popitem_removes_one_item self) as [_ Hsome].
  split; [apply Hempty; reflexivity |]. split; [reflexivity |].
  destruct Hsome as (k & v & Hk & Hpop & Hsize & _).
  { apply insert_non_empty. }
  exists k, v. split; [exact Hk |]. split; [by rewrite Hpop | exact Hsize].
Defined.

(** X2: [SessionDict.pop] returns what the mixin's [pop] it overrides
    returns and leaves the same mapping; the two are the same call when
    the key is present or no default is given, and differ in one thing
    only: for an absent key with a default the mixin's [pop] would mark
    the container modified, and [SessionDict.pop] leaves the flag as it
    was. *)
Theorem pop_overrides_only_the_flag self key args :
  result (pop key args self) = result (_UpdateDictMixin.pop key args self) /\
  items (after (pop key args self)) = items (after (_UpdateDictMixin.pop key args self)) /\
  (is_Some (items self !! key) \/ args = None ->
   pop key args self = _UpdateDictMixin.pop key args self) /\
  (items self !! key = None -> is_Some args ->
   modified (after (_UpdateDictMixin.pop key args self)) = true /\
   modified (after (pop key args self)) = modified self).
Proof.
  unfold pop, _UpdateDictMixin.pop, calls_update, dict.pop.
  destruct (items self !! key) as [v|] eqn:Hk.
  - rewrite (contains_present _ _ _ Hk).
    split; [done |]. split; [done |]. split; [done |]. intros [=].
  - rewrite (contains_absent _ _ Hk). destruct args as [default|]; simpl.
    + split; [done |]. split; [done |]. split; [| done].
      intros [[? [=]]|[=]].
    + rewrite set_items_id. split; [done |]. split; [done |]. split; [done |].
      by intros _ [? [=]].
Qed.

Lemma pop_overrides_only_the_flag_witness :
  let self := SessionDict_init (0, "session") (Some {[ "user" := VStr "alice" ]}) false in
  pop "user" (Some VNone) self = _UpdateDictMixin.pop "user" (Some VNone) self /\
  pop "cart" None self = _UpdateDictMixin.pop "cart" None self /\
  modified (after (_UpdateDictMixin.pop "cart" (Some VNone) self)) = true /\
  modified (after (pop "cart" (Some VNone) self)) = false.
Proof.
  intros self.
  destruct (pop_overrides_only_the_flag self "user" (Some VNone)) as (_ & _ & Hsame & _).
  destruct (pop_overrides_only_the_flag self "cart" None) as (_ & _ & Hsame' & _).
  destruct (pop_overrides_only_the_flag self "cart" (Some VNone)) as (_ & _ & _ & Hflag).
  split; [apply Hsame; left; vm_compute; eauto |].
  split; [apply Hsame'; right; reflexivity |].
  apply Hflag; [reflexivity | eauto].
Defined.

Lemma add_flashes_append self key l messages :
  items self !! key = Some (VList l) ->
  items (call_methods (add_flashes key messages) self)
  = <[key := VList (l ++ map (fun m => VTuple [m.1; m.2]) messages)]> (items self).
Proof.
  revert self l. induction messages as [|[v lv] ms IH]; intros self l Hk; simpl.
  - rewrite app_nil_r. symmetry. by apply insert_id.
  - rewrite (add_flash_present _ _ _ _ _ Hk). unfold after. simpl snd.
    rewrite (IH _ (l ++ [VTuple [v; lv]])%list); [| simpl; apply lookup_insert_eq].
    simpl. by rewrite insert_insert_eq, <- app_assoc.
Qed.

(** X3: flash messages pile up in the order they were added.  On a
    container that has nothing under [key], after any number of
    [add_flash] calls [get_flashes] returns all the (value, level)
    pairs, first added first, and leaves the mapping as it was before
    the first message. *)
Theorem flashes_come_back_in_order self key messages :
  items self !! key = None ->
  let self' := call_methods (add_flashes key messages) self in
  result (get_flashes key self')
  = Return (VList (map (fun m => VTuple [m.1; m.2]) messages)) /\
  items (after (get_flashes key self')) = items self.
Proof.
  intros Hk self'. destruct messages as [|[v lv] ms].
  - subst self'. simpl. unfold get_flashes. by rewrite (pop_absent_default _ _ _ Hk).
  - assert (items self' = <[key := VList (map (fun m => VTuple [m.1; m.2])
                                               ((v, lv) :: ms))]> (items self)) as E.
    { subst self'. simpl. rewrite (add_flash_absent _ _ _ _ Hk). unfold after. simpl snd.
      rewrite (add_flashes_append _ _ [VTuple [v; lv]]); [| simpl; apply lookup_insert_eq].
      simpl. by rewrite insert_insert_eq. }
    unfold get_flashes. erewrite pop_present; [| rewrite E; apply lookup_insert_eq].
    simpl. split; [done |]. rewrite E, delete_insert_eq. by apply delete_id.
Qed.

Lemma flashes_come_back_in_order_witness :
  let self := SessionDict_init (0, "session") (Some {[ "user" := VStr "alice" ]}) false in
  let self' := call_methods (add_flashes _flash [(VStr "saved!", VStr "info");
                                                 (VStr "disk full", VNone)]) self in
  result (get_flashes _flash self')
  = Return (VList [VTuple [VStr "saved!"; VStr "info"]; VTuple [VStr "disk full"; VNone]]) /\
  items (after (get_flashes _flash self')) = items self.
Proof.
  intros self.
  apply (flashes_come_back_in_order self _flash
           [(VStr "saved!", VStr "info"); (VStr "disk full", VNone)]).
  reflexivity.
Defined.

(** X4: when [key] holds something that is not a list, [add_flash]
    raises [AttributeError] (the value has no [append]) and the mapping
    stays as it was, but the container has already been marked
    modified by the [setdefault] that came first. *)
Theorem add_flash_on_a_non_list self value level key x :
  items self !! key = Some x -> (forall l, x <> VList l) ->
  add_flash value level key self = (Raise (AttributeError "append"), on_update self).
Proof.
  intros Hk Hx. unfold add_flash, bind. rewrite (setdefault_present _ _ _ _ Hk).
  unfold append_stored. simpl. rewrite Hk.
  destruct x; try reflexivity. by destruct (Hx l).
Qed.

Lemma add_flash_on_a_non_list_witness :
  let self := SessionDict_init (0, "session") (Some {[ "_flash" := VStr "oops" ]}) false in
  add_flash (VStr "saved!") VNone _flash self
  = (Raise (AttributeError "append"), on_update self) /\
  modified (on_update self) = true /\ items (on_update self) = items self.
Proof.
  intros self. split; [| split; reflexivity].
  apply (add_flash_on_a_non_list self _ _ _ (VStr "oops")); [reflexivity | discriminate].
Defined.

(** ** Session ids *)

Lemma append_cons c (h rest : string) : String c h +:+ rest = String c (h +:+ rest).
Proof. reflexivity. Qed.

Lemma append_empty (h : string) : h +:+ "" = h.
Proof. induction h as [|c h IH]; [done |]. by rewrite append_cons, IH. Qed.

Lemma match_sid_chars_spec n s rest :
  match_sid_chars n s = Some rest <->
  exists h, String.length h = n /\
            forallb sid_char (String.list_ascii_of_string h) = true /\ s = h +:+ rest.
Proof.
  revert s. induction n as [|n IH]; intros s; simpl.
  - split.
    + intros [= ->]. by exists "".
    + intros (h & Hl & _ & ->). destruct h; [done | discriminate].
  - destruct s as [|c s'].
    + split; [discriminate |]. intros (h & Hl & _ & E). destruct h; discriminate.
    + destruct (sid_char c) eqn:Hc.
      * rewrite IH. split.
        -- intros (h & Hl & Hh & ->). exists (String c h). simpl.
           rewrite Hc, Hl. auto.
        -- intros (h & Hl & Hh & E). destruct h as [|c' h]; [discriminate |].
           simpl in *. injection E as -> ->. injection Hl as Hl.
           apply andb_true_iff in Hh as [_ Hh]. by exists h.
      * split; [discriminate |]. intros (h & Hl & Hh & E).
        destruct h as [|c' h]; [discriminate |]. simpl in *. injection E as -> ->.
        by rewrite Hc in Hh.
Qed.

(** X5: [_is_valid_sid(sid)] is true exactly for the strings made of 32
    characters of [0-9a-f], and for such a string followed by one
    newline, which the [$] of the pattern lets through; [None] and the
    empty string are given back as they are, hence false. *)
Theorem valid_sid_is_32_lowercase_hex :
  (forall s, truth (_is_valid_sid (Some s)) = true <->
             exists h, String.length h = 32 /\
                       forallb sid_char (String.list_ascii_of_string h) = true /\
                       (s = h \/ s = h +:+ newline)) /\
  _is_valid_sid None = VNone /\ _is_valid_sid (Some "") = VStr "" /\
  (forall c, sid_char c = true <->
             (48 <= Ascii.nat_of_ascii c <= 57 \/ 97 <= Ascii.nat_of_ascii c <= 102)).
Proof.
  split; [| split; [done | split; [done |]]].
  - intros s. unfold _is_valid_sid. destruct (str_bool s) eqn:Hs.
    + simpl. unfold _sid_re_match. split.
      * destruct (match_sid_chars 32 s) as [rest|] eqn:E; [| discriminate].
        apply match_sid_chars_spec in E as (h & Hl & Hh & ->).
        intros H. apply orb_true_iff in H as [H|H]; apply bool_decide_eq_true in H;
          subst rest; exists h; repeat split; try done.
        { left. apply append_empty. }
        by right.
      * intros (h & Hl & Hh & [->| ->]).
        -- assert (match_sid_chars 32 h = Some "") as ->; [| done].
           apply match_sid_chars_spec. exists h. repeat split; try done.
           symmetry. apply append_empty.
        -- assert (match_sid_chars 32 (h +:+ newline) = Some newline) as ->; [| done].
           apply match_sid_chars_spec. by exists h.
    + destruct s; [| discriminate]. simpl. split; [discriminate |].
      intros (h & Hl & _ & [E|E]); destruct h; discriminate.
  - intros c. unfold sid_char. rewrite orb_true_iff, !andb_true_iff, !Nat.leb_le. tauto.
Qed.

(** * Properties of the store *)

(** ** The orders are preorders *)

Lemma factory_le_refl f : factory_le f f.
Proof. unfold factory_le; auto. Qed.

Lemma factory_le_trans f1 f2 f3 : factory_le f1 f2 -> factory_le f2 f3 -> factory_le f1 f3.
Proof.
  unfold factory_le. intros (Hc & Hn & Hs & H1) (Hc' & Hn' & Hs' & H2).
  repeat split; try congruence. auto.
Qed.

Lemma store_le_refl st : store_le st st.
Proof. split; [done |]. intros nm f H. exists f. split; [done | apply factory_le_refl]. Qed.

Lemma store_le_trans s1 s2 s3 : store_le s1 s2 -> store_le s2 s3 -> store_le s1 s3.
Proof.
  intros [Hc H1] [Hc' H2]. split; [congruence |].
  intros nm f Hf. destruct (H1 _ _ Hf) as (f2 & Hf2 & Hle).
  destruct (H2 _ _ Hf2) as (f3 & Hf3 & Hle'). exists f3.
  split; [done | by eapply factory_le_trans].
Qed.

Lemma world_le_refl w : world_le w w.
Proof.
  repeat split; try done.
  - intros i st H. exists st. split; [done | apply store_le_refl].
  - intros l d H. exists d. split; [done | apply dict_le_refl].
Qed.

Lemma world_le_trans w1 w2 w3 : world_le w1 w2 -> world_le w2 w3 -> world_le w1 w3.
Proof.
  intros (Hc & Ha & Hr & Hs & Hd) (Hc' & Ha' & Hr' & Hs' & Hd').
  repeat split; try congruence.
  - by etrans.
  - intros i st H. destruct (Hs _ _ H) as (st2 & H2 & Hle).
    destruct (Hs' _ _ H2) as (st3 & H3 & Hle'). exists st3.
    split; [done | by eapply store_le_trans].
  - intros l d H. destruct (Hd _ _ H) as (d2 & H2 & Hle).
    destruct (Hd' _ _ H2) as (d3 & H3 & Hle'). exists d3.
    split; [done | by eapply dict_le_trans].
Qed.

Lemma same_sessions_refl w : same_sessions w w.
Proof. repeat split; try done. intros i st H. by exists st. Qed.

Lemma same_sessions_trans w1 w2 w3 :
  same_sessions w1 w2 -> same_sessions w2 w3 -> same_sessions w1 w3.
Proof.
  intros (Hd & Hr & Hq & Hl & Hs) (Hd' & Hr' & Hq' & Hl' & Hs').
  repeat split; try congruence.
  intros i st H. destruct (Hs _ _ H) as (st2 & H2 & E1 & E2).
  destruct (Hs' _ _ H2) as (st3 & H3 & E1' & E2'). exists st3.
  repeat split; congruence.
Qed.

#[local] Instance world_le_preorder : PreOrder world_le.
Proof. split; [exact world_le_refl | exact world_le_trans]. Qed.

#[local] Instance same_sessions_preorder : PreOrder same_sessions.
Proof. split; [exact same_sessions_refl | exact same_sessions_trans]. Qed.

(** ** Running computations step by step *)

Lemma bind_eq {S A B} (m : Eff S A) (k : A -> Eff S B) s a s' :
  m s = (Return a, s') -> bind m k s = k a s'.
Proof. intros H. unfold bind. by rewrite H. Qed.

Lemma bind_raise {S A B} (m : Eff S A) (k : A -> Eff S B) s e s' :
  m s = (Raise e, s') -> bind m k s = (Raise e, s').
Proof. intros H. unfold bind. by rewrite H. Qed.

Lemma the_store_eq w self st :
  stores w !! self = Some st -> the_store self w = (Return st, w).
Proof. intros H. unfold the_store. by rewrite H. Qed.

Lemma the_store_none w self :
  stores w !! self = None -> the_store self w = (Raise InvalidHandle, w).
Proof. intros H. unfold the_store. by rewrite H. Qed.

Lemma the_dict_eq w l d :
  dicts w !! l = Some d -> the_dict l w = (Return d, w).
Proof. intros H. unfold the_dict. by rewrite H. Qed.

Lemma the_factory_eq w self nm st f :
  stores w !! self = Some st -> sessions st !! nm = Some f ->
  the_factory (self, nm) w = (Return f, w).
Proof.
  intros H1 H2. unfold the_factory. simpl.
  rewrite (bind_eq _ _ _ _ _ (the_store_eq _ _ _ H1)). by rewrite H2.
Qed.

Lemma the_factory_inv w c f w' :
  the_factory c w = (Return f, w') ->
  w' = w /\ exists st, stores w !! fst c = Some st /\ sessions st !! snd c = Some f.
Proof.
  unfold the_factory, bind, the_store.
  destruct (stores w !! fst c) as [st|] eqn:Hst; [| discriminate].
  destruct (sessions st !! snd c) as [f'|] eqn:Hf; [| discriminate].
  intros [= <- <-]. eauto.
Qed.

Lemma the_factory_after w c : after (the_factory c w) = w.
Proof.
  unfold the_factory, bind, the_store.
  destruct (stores w !! fst c) as [st|]; [| done].
  by destruct (sessions st !! snd c).
Qed.

Section Steps.
Context (R : World -> World -> Prop) `{!PreOrder R}.

Lemma steps_ret {A} (a : A) : steps R (ret a).
Proof. intros w. reflexivity. Qed.

Lemma steps_raise {A} e : steps R (raise (A := A) e).
Proof. intros w. reflexivity. Qed.

Lemma steps_gets {A} (f : World -> A) : steps R (gets f).
Proof. intros w. reflexivity. Qed.

Lemma steps_lift {A} (r : outcome A) : steps R (lift r).
Proof. intros w. reflexivity. Qed.

Lemma steps_bind {A B} (m : Eff World A) (k : A -> Eff World B) :
  steps R m -> (forall a, steps R (k a)) -> steps R (bind m k).
Proof.
  intros Hm Hk w. specialize (Hm w). unfold bind, after in *.
  destruct (m w) as [[a|e] w1]; simpl in *; [| done].
  etrans; [exact Hm | apply Hk].
Qed.

Lemma steps_the_store self : steps R (the_store self).
Proof. intros w. unfold the_store. destruct (stores w !! self); reflexivity. Qed.

Lemma steps_the_dict l : steps R (the_dict l).
Proof. intros w. unfold the_dict. destruct (dicts w !! l); reflexivity. Qed.

Lemma steps_the_factory c : steps R (the_factory c).
Proof. intros w. rewrite the_factory_after. reflexivity. Qed.

Lemma steps_discard {A} (m : Eff World A) : steps R m -> steps R (discard m).
Proof. intros H. apply steps_bind; [done | intros; apply steps_ret]. Qed.

(** A computation that starts by reading the store may use what it
    read. *)
Lemma steps_with_store {A} self (k : SessionStore -> Eff World A) :
  (forall w st, stores w !! self = Some st -> R w (after (k st w))) ->
  steps R (bind (the_store self) k).
Proof.
  intros H w. unfold bind, the_store.
  destruct (stores w !! self) as [st|] eqn:Hst; [by apply H | reflexivity].
Qed.

Lemma steps_with_factory {A} c (k : Factory -> Eff World A) :
  (forall w st f, stores w !! fst c = Some st -> sessions st !! snd c = Some f ->
                  R w (after (k f w))) ->
  steps R (bind (the_factory c) k).
Proof.
  intros H w. unfold bind. destruct (the_factory c w) as [[f|e] w'] eqn:E.
  - apply the_factory_inv in E as (-> & st & Hst & Hf). by eapply H.
  - pose proof (the_factory_after w c) as E'. rewrite E in E'. simpl in *.
    subst. reflexivity.
Qed.

End Steps.

(** ** How the primitive updates move the world *)

Lemma put_store_after w self st' :
  after (put_store self st' w) = set_stores w (<[self := st']> (stores w)).
Proof. reflexivity. Qed.

Lemma put_store_le w self st st' :
  stores w !! self = Some st -> store_le st st' ->
  world_le w (after (put_store self st' w)).
Proof.
  intros Hst Hle. rewrite put_store_after. repeat split; try done.
  - intros i st0 Hi. simpl. destruct (decide (i = self)) as [->|Hne].
    + rewrite list_lookup_insert_eq by (by eapply lookup_lt_Some).
      exists st'. split; [done |]. congruence.
    + rewrite list_lookup_insert_ne by done. exists st0.
      split; [done | apply store_le_refl].
  - intros l d H. exists d. split; [done | apply dict_le_refl].
Qed.

Lemma insert_factory_le st nm f' :
  (forall f, sessions st !! nm = Some f -> factory_le f f') ->
  store_le st (set_sessions st (<[nm := f']> (sessions st))).
Proof.
  intros H. split; [done |]. intros n f Hf. simpl.
  destruct (decide (n = nm)) as [->|Hne].
  - rewrite lookup_insert_eq. exists f'. split; [done | by apply H].
  - rewrite lookup_insert_ne by done. exists f. split; [done | apply factory_le_refl].
Qed.

Lemma put_factory_le w self nm f' :
  (forall st f, stores w !! self = Some st -> sessions st !! nm = Some f ->
                factory_le f f') ->
  world_le w (after (put_factory (self, nm) f' w)).
Proof.
  intros H. unfold put_factory. simpl.
  destruct (stores w !! self) as [st|] eqn:Hst.
  - rewrite (bind_eq _ _ _ _ _ (the_store_eq _ _ _ Hst)).
    eapply put_store_le; [done |]. apply insert_factory_le. intros f. by apply H.
  - rewrite (bind_raise _ _ _ _ _ (the_store_none _ _ Hst)). apply world_le_refl.
Qed.

Lemma new_dict_le d : steps world_le (new_dict d).
Proof.
  intros w. unfold new_dict, after. simpl. repeat split; try done.
  - intros i st H. exists st. split; [done | apply store_le_refl].
  - intros l d0 H. exists d0. simpl.
    split; [by apply lookup_app_l_Some | apply dict_le_refl].
Qed.

Lemma new_store_le st : steps world_le (new_store st).
Proof.
  intros w. unfold new_store, after. simpl. repeat split; try done.
  - intros i st0 H. exists st0. simpl.
    split; [by apply lookup_app_l_Some | apply store_le_refl].
  - intros l d H. exists d. split; [done | apply dict_le_refl].
Qed.

Lemma on_dict_le {A} l (m : Eff SessionDict A) :
  (forall d, dict_le d (after (m d))) -> steps world_le (on_dict l m).
Proof.
  intros Hm w. unfold on_dict. destruct (dicts w !! l) as [d|] eqn:Hd;
    [| apply world_le_refl].
  specialize (Hm d). destruct (m d) as [r d']. unfold after in *. simpl in *.
  repeat split; try done.
  - intros i st H. exists st. split; [done | apply store_le_refl].
  - intros l0 d0 H. simpl. destruct (decide (l0 = l)) as [->|Hne].
    + rewrite list_lookup_insert_eq by (by eapply lookup_lt_Some).
      exists d'. split; [done |]. congruence.
    + rewrite list_lookup_insert_ne by done. exists d0.
      split; [done | apply dict_le_refl].
Qed.

Lemma set_registry_le w r : world_le w (set_registry w r).
Proof.
  repeat split; try done.
  - intros i st H. exists st. split; [done | apply store_le_refl].
  - intros l d H. exists d. split; [done | apply dict_le_refl].
Qed.

Lemma add_cookie_le w c : world_le w (set_response w (response w ++ [c])).
Proof.
  repeat split; try done.
  - simpl. by apply prefix_app_r.
  - intros i st H. exists st. split; [done | apply store_le_refl].
  - intros l d H. exists d. split; [done | apply dict_le_refl].
Qed.

(** ** The serializer is built at most once and touches nothing else *)

Lemma serializer_eq w self st :
  stores w !! self = Some st ->
  serializer self w =
  match serializer_slot st with
  | Some sg => (Return sg, w)
  | None =>
      match SecureCookieSerializer_init (secret_key (config st)) with
      | Return sg => (Return sg, set_stores w (<[self := set_serializer_slot st (Some sg)]>
                                                 (stores w)))
      | Raise e => (Raise e, w)
      end
  end.
Proof.
  intros Hst. unfold serializer. rewrite (bind_eq _ _ _ _ _ (the_store_eq _ _ _ Hst)).
  destruct (serializer_slot st); [done |].
  unfold bind, lift. by destruct (SecureCookieSerializer_init _).
Qed.

Lemma set_slot_same w self st sg :
  stores w !! self = Some st ->
  same_sessions w (set_stores w (<[self := set_serializer_slot st sg]> (stores w))).
Proof.
  intros Hst. repeat split; try done.
  - simpl. apply length_insert.
  - intros i st0 Hi. simpl. destruct (decide (i = self)) as [->|Hne].
    + rewrite list_lookup_insert_eq by (by eapply lookup_lt_Some).
      eexists. split; [done |]. simpl. split; congruence.
    + rewrite list_lookup_insert_ne by done. by exists st0.
Qed.

Lemma same_sessions_le w w' : same_sessions w w' -> world_le w w'.
Proof.
  intros (Hd & Hr & Hq & Hl & Hs). repeat split; try congruence.
  - by rewrite Hr.
  - intros i st H. destruct (Hs _ _ H) as (st' & H' & E1 & E2). exists st'.
    split; [done |]. split; [done |]. intros nm f Hf. exists f.
    split; [congruence | apply factory_le_refl].
  - intros l d H. exists d. split; [congruence | apply dict_le_refl].
Qed.

Lemma serializer_same self : steps same_sessions (serializer self).
Proof.
  intros w. destruct (stores w !! self) as [st|] eqn:Hst.
  - rewrite (serializer_eq _ _ _ Hst). destruct (serializer_slot st).
    + apply same_sessions_refl.
    + destruct (SecureCookieSerializer_init _).
      * by apply set_slot_same.
      * apply same_sessions_refl.
  - unfold serializer. rewrite (bind_raise _ _ _ _ _ (the_store_none _ _ Hst)).
    apply same_sessions_refl.
Qed.

Lemma steps_weaken (R R' : World -> World -> Prop) {A} (m : Eff World A) :
  (forall w w', R w w' -> R' w w') -> steps R m -> steps R' m.
Proof. intros H Hm w. apply H, Hm. Qed.

Ltac step_bind := apply steps_bind; [apply _ | |].
Ltac step_done :=
  first [ apply steps_ret | apply steps_raise | apply steps_gets | apply steps_lift
        | apply steps_the_store | apply steps_the_dict | apply steps_the_factory ];
  try apply _.

Section StoreProperties.
Context {signer : SecureCookie}.

(** ** Reading and writing signed cookies *)

Lemma get_secure_cookie_same self nm max_age :
  steps same_sessions (get_secure_cookie self nm max_age).
Proof.
  unfold get_secure_cookie.
  step_bind; [step_done |]. intros st.
  step_bind; [step_done |]. intros [v|]; [| step_done].
  destruct (str_bool v); [| step_done].
  step_bind; [apply serializer_same | intros; step_done].
Qed.

Lemma get_secure_cookie_le self nm max_age :
  steps world_le (get_secure_cookie self nm max_age).
Proof.
  eapply steps_weaken; [apply same_sessions_le | apply get_secure_cookie_same].
Qed.

Lemma serializer_le self : steps world_le (serializer self).
Proof. eapply steps_weaken; [apply same_sessions_le | apply serializer_same]. Qed.

Lemma save_secure_cookie_le self nm value kwargs :
  steps world_le (save_secure_cookie self nm value kwargs).
Proof.
  unfold save_secure_cookie.
  step_bind; [apply serializer_le |]. intros sg w. apply add_cookie_le.
Qed.

(** ** The cookie-backed factory *)

Lemma SecureCookie_get_session_new w self nm st f max_age data w1 :
  stores w !! self = Some st -> sessions st !! nm = Some f -> session f = None ->
  get_secure_cookie (session_store f) (name f) max_age w = (Return data, w1) ->
  exists st1, stores w1 !! self = Some st1 /\ sessions st1 = sessions st /\
              config st1 = config st /\ dicts w1 = dicts w /\
              SecureCookieSessionFactory_get_session (self, nm) max_age w
              = (Return (length (dicts w)), session_resolved w1 self nm st1 f data).
Proof.
  intros Hst Hf Hnone Hget.
  pose proof (get_secure_cookie_same (session_store f) (name f) max_age w) as Hsame.
  rewrite Hget in Hsame. simpl in Hsame.
  destruct Hsame as (Hd & Hr & Hq & Hl & Hs).
  destruct (Hs _ _ Hst) as (st1 & Hst1 & E1 & E2).
  exists st1. repeat split; try done.
  unfold SecureCookieSessionFactory_get_session.
  rewrite (bind_eq _ _ _ _ _ (the_factory_eq _ _ _ _ _ Hst Hf)). rewrite Hnone.
  rewrite (bind_eq _ _ _ _ _ Hget).
  unfold bind at 1. unfold new_dict at 1.
  set (w2 := set_dicts w1 _).
  assert (stores w2 !! self = Some st1) as Hst2 by done.
  assert (sessions st1 !! nm = Some f) as Hf1 by congruence.
  rewrite (bind_eq _ _ _ _ _ (the_factory_eq _ _ _ _ _ Hst2 Hf1)).
  unfold put_factory. simpl fst. simpl snd.
  unfold bind at 1. unfold bind at 1. rewrite (the_store_eq _ _ _ Hst2).
  unfold put_store, modify, ret. simpl. f_equal. by rewrite Hd.
Qed.

Lemma SecureCookie_get_session_known w self nm st f l max_age :
  stores w !! self = Some st -> sessions st !! nm = Some f -> session f = Some l ->
  SecureCookieSessionFactory_get_session (self, nm) max_age w = (Return l, w).
Proof.
  intros Hst Hf Hl. unfold SecureCookieSessionFactory_get_session.
  rewrite (bind_eq _ _ _ _ _ (the_factory_eq _ _ _ _ _ Hst Hf)). by rewrite Hl.
Qed.

Lemma SecureCookie_get_session_fails w self nm st f max_age e w1 :
  stores w !! self = Some st -> sessions st !! nm = Some f -> session f = None ->
  get_secure_cookie (session_store f) (name f) max_age w = (Raise e, w1) ->
  SecureCookieSessionFactory_get_session (self, nm) max_age w = (Raise e, w1).
Proof.
  intros Hst Hf Hnone Hget. unfold SecureCookieSessionFactory_get_session.
  rewrite (bind_eq _ _ _ _ _ (the_factory_eq _ _ _ _ _ Hst Hf)). rewrite Hnone.
  by rewrite (bind_raise _ _ _ _ _ Hget).
Qed.

Lemma session_resolved_le w1 self nm st1 f data :
  stores w1 !! self = Some st1 -> sessions st1 !! nm = Some f -> session f = None ->
  world_le w1 (session_resolved w1 self nm st1 f data).
Proof.
  intros Hst1 Hf Hnone. unfold session_resolved.
  set (d := SessionDict_init _ _ _).
  etrans; [apply (new_dict_le d w1) |].
  unfold new_dict, after. simpl.
  set (w2 := set_dicts w1 _).
  apply (put_store_le w2 self st1); [done |].
  apply insert_factory_le. intros f0 Hf0.
  assert (f0 = f) as -> by congruence.
  unfold factory_le. simpl. repeat split; try done. intros l. by rewrite Hnone.
Qed.

Lemma SecureCookie_get_session_le c max_age :
  steps world_le (SecureCookieSessionFactory_get_session c max_age).
Proof.
  destruct c as [self nm]. intros w.
  destruct (the_factory (self, nm) w) as [[f|e] w'] eqn:E.
  - apply the_factory_inv in E as (-> & st & Hst & Hf). simpl in Hst, Hf.
    destruct (session f) as [l|] eqn:Hl.
    + rewrite (SecureCookie_get_session_known _ _ _ _ _ _ _ Hst Hf Hl). reflexivity.
    + destruct (get_secure_cookie (session_store f) (name f) max_age w)
        as [[data|e] w1] eqn:Hget.
      * destruct (SecureCookie_get_session_new _ _ _ _ _ _ _ _ Hst Hf Hl Hget)
          as (st1 & Hst1 & E1 & E2 & Hd & ->).
        unfold after. simpl.
        pose proof (get_secure_cookie_le (session_store f) (name f) max_age w) as Hle.
        rewrite Hget in Hle. etrans; [exact Hle |].
        apply session_resolved_le; congruence.
      * rewrite (SecureCookie_get_session_fails _ _ _ _ _ _ _ _ Hst Hf Hl Hget).
        pose proof (get_secure_cookie_le (session_store f) (name f) max_age w) as Hle.
        by rewrite Hget in Hle.
  - unfold SecureCookieSessionFactory_get_session.
    rewrite (bind_raise _ _ _ _ _ E).
    pose proof (the_factory_after w (self, nm)) as E'. rewrite E in E'.
    simpl in *. subst. reflexivity.
Qed.

(** ** The other factories *)

Lemma Custom_get_session_known w self nm st f l max_age :
  stores w !! self = Some st -> sessions st !! nm = Some f -> session f = Some l ->
  CustomBackendSessionFactory_get_session (self, nm) max_age w = (Return l, w).
Proof.
  intros Hst Hf Hl. unfold CustomBackendSessionFactory_get_session.
  rewrite (bind_eq _ _ _ _ _ (the_factory_eq _ _ _ _ _ Hst Hf)). by rewrite Hl.
Qed.

(** The base class of the custom backends cannot resolve a session:
    [_get_by_sid] is left to subclasses. *)
Lemma Custom_get_session_unresolved w self nm st f max_age :
  stores w !! self = Some st -> sessions st !! nm = Some f -> session f = None ->
  exists e,
    CustomBackendSessionFactory_get_session (self, nm) max_age w
    = (Raise e, after (get_secure_cookie (session_store f) (name f) max_age w)).
Proof.
  intros Hst Hf Hnone. unfold CustomBackendSessionFactory_get_session.
  rewrite (bind_eq _ _ _ _ _ (the_factory_eq _ _ _ _ _ Hst Hf)). rewrite Hnone.
  unfold bind at 1.
  destruct (get_secure_cookie (session_store f) (name f) max_age w) as [[data|e] w1].
  - exists NotImplementedError. reflexivity.
  - exists e. reflexivity.
Qed.

Lemma Custom_get_session_le c max_age :
  steps world_le (CustomBackendSessionFactory_get_session c max_age).
Proof.
  destruct c as [self nm]. intros w.
  destruct (the_factory (self, nm) w) as [[f|e] w'] eqn:E.
  - apply the_factory_inv in E as (-> & st & Hst & Hf). simpl in Hst, Hf.
    destruct (session f) as [l|] eqn:Hl.
    + rewrite (Custom_get_session_known _ _ _ _ _ _ _ Hst Hf Hl). reflexivity.
    + destruct (Custom_get_session_unresolved _ _ _ _ _ max_age Hst Hf Hl) as [e ->].
      apply get_secure_cookie_le.
  - unfold CustomBackendSessionFactory_get_session.
    rewrite (bind_raise _ _ _ _ _ E).
    pose proof (the_factory_after w (self, nm)) as E'. rewrite E in E'.
    simpl in *. subst. reflexivity.
Qed.

Lemma Factory_get_session_le c max_age :
  steps world_le (Factory_get_session c max_age).
Proof.
  unfold Factory_get_session. step_bind; [step_done |]. intros f.
  destruct (class_of f);
    [step_done | apply SecureCookie_get_session_le | apply Custom_get_session_le].
Qed.

(** ** Tracking a session under a name *)

(** The factory instance that [factory(name, self)] builds. *)
Lemma BaseSessionFactory_init_eq w cls nm self st :
  stores w !! self = Some st ->
  BaseSessionFactory_init cls nm self w
  = (Return {| class_of := cls; name := nm; session_store := self;
               session_args := cookie_args (config st); session := None |}, w).
Proof.
  intros Hst. unfold BaseSessionFactory_init.
  by rewrite (bind_eq _ _ _ _ _ (the_store_eq _ _ _ Hst)).
Qed.

Lemma container_known w self nm factory st f :
  stores w !! self = Some st -> sessions st !! nm = Some f ->
  _get_session_container self nm factory w = (Return (self, nm), w).
Proof.
  intros Hst Hf. unfold _get_session_container.
  rewrite (bind_eq _ _ _ _ _ (the_store_eq _ _ _ Hst)). by rewrite Hf.
Qed.

Lemma container_new w self nm factory st :
  stores w !! self = Some st -> sessions st !! nm = None ->
  _get_session_container self nm factory w
  = (Return (self, nm),
     set_stores w
       (<[self := set_sessions st
                    (<[nm := {| class_of := factory; name := nm; session_store := self;
                                session_args := cookie_args (config st);
                                session := None |}]> (sessions st))]> (stores w))).
Proof.
  intros Hst Hf. unfold _get_session_container.
  rewrite (bind_eq _ _ _ _ _ (the_store_eq _ _ _ Hst)). rewrite Hf.
  unfold bind at 1. unfold bind at 1.
  by rewrite (BaseSessionFactory_init_eq _ _ _ _ _ Hst).
Qed.

Lemma container_invalid w self nm factory :
  stores w !! self = None ->
  _get_session_container self nm factory w = (Raise InvalidHandle, w).
Proof.
  intros Hst. unfold _get_session_container.
  by rewrite (bind_raise _ _ _ _ _ (the_store_none _ _ Hst)).
Qed.

Lemma _get_session_container_le self nm factory :
  steps world_le (_get_session_container self nm factory).
Proof.
  intros w. destruct (stores w !! self) as [st|] eqn:Hst.
  - destruct (sessions st !! nm) as [f|] eqn:Hf.
    + rewrite (container_known _ _ _ _ _ _ Hst Hf). reflexivity.
    + rewrite (container_new _ _ _ _ _ Hst Hf).
      apply (put_store_le w self st); [done |].
      apply insert_factory_le. intros f. by rewrite Hf.
  - rewrite (container_invalid _ _ _ _ Hst). reflexivity.
Qed.

(** [get_session] resolves its name and max-age from the store's
    configuration and hands over to the factory tracked under the
    name. *)
Lemma get_session_eq w self nm max_age factory st :
  stores w !! self = Some st ->
  get_session self nm max_age factory w
  = bind (_get_session_container self (resolved_name st nm) factory)
      (fun cont => Factory_get_session cont (MaxAge (effective_max_age st max_age))) w.
Proof.
  intros Hst. unfold get_session.
  rewrite (bind_eq _ _ _ _ _ (the_store_eq _ _ _ Hst)).
  unfold resolved_name, effective_max_age. by destruct max_age.
Qed.

Lemma get_session_le self nm max_age factory :
  steps world_le (get_session self nm max_age factory).
Proof.
  unfold get_session. step_bind; [step_done |]. intros st.
  step_bind; [apply _get_session_container_le |]. intros cont.
  apply Factory_get_session_le.
Qed.

Lemma update_session_args_le cont (g : Factory -> gmap string pyval) :
  steps world_le
    (bind (the_factory cont) (fun f => put_factory cont (set_session_args f (g f)))).
Proof.
  destruct cont as [self nm].
  apply steps_with_factory; [apply _ |]. intros w st f Hst Hf.
  apply put_factory_le. intros st0 f0 Hst0 Hf0. simpl in *.
  assert (f0 = f) as -> by congruence.
  unfold factory_le. simpl. auto.
Qed.

Lemma update_le other d : dict_le d (after (update other d)).
Proof. apply calls_update_le. Qed.

Lemma set_secure_cookie_le self nm value kwargs :
  steps world_le (set_secure_cookie self nm value kwargs).
Proof.
  unfold set_secure_cookie. destruct value; try step_done.
  step_bind; [apply _get_session_container_le |]. intros cont.
  step_bind; [apply Factory_get_session_le |]. intros l.
  step_bind; [apply on_dict_le, update_le |]. intros _.
  apply (update_session_args_le cont (fun f => kwargs ∪ session_args f)).
Qed.

(** ** Saving *)

Lemma SecureCookie_save_session_le c :
  steps world_le (SecureCookieSessionFactory_save_session c).
Proof.
  unfold SecureCookieSessionFactory_save_session.
  step_bind; [step_done |]. intros f. destruct (session f) as [l|]; [| step_done].
  step_bind; [step_done |]. intros d.
  destruct (negb (dict.__bool__ (items d)) || negb (modified d));
    [step_done | apply save_secure_cookie_le].
Qed.

Lemma Factory_save_session_le c : steps world_le (Factory_save_session c).
Proof.
  unfold Factory_save_session. step_bind; [step_done |]. intros f.
  destruct (class_of f); [step_done | apply SecureCookie_save_session_le | step_done].
Qed.

Lemma for_each_le {A} (l : list A) (body : A -> Eff World unit) :
  (forall x, steps world_le (body x)) -> steps world_le (for_each l body).
Proof.
  intros Hbody. induction l as [|x l IH]; simpl; [step_done |].
  step_bind; [apply Hbody | intros _; exact IH].
Qed.

Lemma save_sessions_le self : steps world_le (save_sessions self).
Proof.
  unfold save_sessions. step_bind; [step_done |]. intros st.
  apply for_each_le. intros [nm f]. apply Factory_save_session_le.
Qed.

(** ** The registry *)

Lemma get_store_le factory key : steps world_le (get_store factory key).
Proof.
  unfold get_store. step_bind; [step_done |]. intros [s|]; [step_done |].
  step_bind; [intros w; reflexivity |]. intros st.
  step_bind; [apply new_store_le |]. intros s.
  step_bind; [intros w; apply set_registry_le | intros; step_done].
Qed.

Lemma set_store_le store key : steps world_le (set_store store key).
Proof. intros w. apply set_registry_le. Qed.

(** ** Whatever a handler calls, objects only evolve *)

Lemma run_call_le c : steps world_le (run_call c).
Proof.
  destruct c; simpl.
  - apply steps_discard; [apply _ | apply get_store_le].
  - apply set_store_le.
  - apply steps_discard; [apply _ | apply get_session_le].
  - apply steps_discard; [apply _ | apply get_secure_cookie_le].
  - apply set_secure_cookie_le.
  - apply save_secure_cookie_le.
  - apply save_sessions_le.
  - apply on_dict_le, call_method_le.
Qed.

Lemma run_calls_le cs w : world_le w (run_calls cs w).
Proof.
  revert w. induction cs as [|c cs IH]; intros w; simpl; [reflexivity |].
  etrans; [apply run_call_le | apply IH].
Qed.

(** ** One container per name *)

Lemma tracked_le w w' self nm l :
  world_le w w' -> tracked w self nm l -> tracked w' self nm l.
Proof.
  intros (_ & _ & _ & Hs & _) (st & f & Hst & Hf & Hc & Hl).
  destruct (Hs _ _ Hst) as (st' & Hst' & _ & Hfs).
  destruct (Hfs _ _ Hf) as (f' & Hf' & Hc' & _ & _ & Hl').
  exists st', f'. repeat split; [done | done | congruence | auto].
Qed.

Lemma config_le w w' self st :
  world_le w w' -> stores w !! self = Some st ->
  exists st', stores w' !! self = Some st' /\ config st' = config st.
Proof.
  intros (_ & _ & _ & Hs & _) Hst.
  destruct (Hs _ _ Hst) as (st' & Hst' & Hc & _). eauto.
Qed.

Lemma Factory_get_session_known w self nm st f l max_age :
  stores w !! self = Some st -> sessions st !! nm = Some f ->
  class_of f <> BaseSessionFactory -> session f = Some l ->
  Factory_get_session (self, nm) max_age w = (Return l, w).
Proof.
  intros Hst Hf Hc Hl. unfold Factory_get_session.
  rewrite (bind_eq _ _ _ _ _ (the_factory_eq _ _ _ _ _ Hst Hf)).
  destruct (class_of f); [done | |].
  - by eapply SecureCookie_get_session_known.
  - by eapply Custom_get_session_known.
Qed.

(** When the factory tracked under [nm] hands out a session, it is
    one it had resolved before, or the cookie-backed factory has just
    created it. *)
Lemma Factory_get_session_returns w self nm st f max_age l w1 :
  stores w !! self = Some st -> sessions st !! nm = Some f ->
  Factory_get_session (self, nm) max_age w = (Return l, w1) ->
  tracked w1 self nm l /\
  (session f = Some l /\ w1 = w \/
   session f = None /\ class_of f = SecureCookieSessionFactory /\
   l = length (dicts w) /\
   exists data wc st1,
     get_secure_cookie (session_store f) (name f) max_age w = (Return data, wc) /\
     stores wc !! self = Some st1 /\ sessions st1 = sessions st /\
     config st1 = config st /\ dicts wc = dicts w /\
     w1 = session_resolved wc self nm st1 f data).
Proof.
  intros Hst Hf. unfold Factory_get_session.
  rewrite (bind_eq _ _ _ _ _ (the_factory_eq _ _ _ _ _ Hst Hf)).
  destruct (class_of f) eqn:Hc; [discriminate | |].
  - destruct (session f) as [l0|] eqn:Hl.
    + rewrite (SecureCookie_get_session_known _ _ _ _ _ _ _ Hst Hf Hl).
      intros [= <- <-]. split; [| by left].
      exists st, f. repeat split; try done. by rewrite Hc.
    + destruct (get_secure_cookie (session_store f) (name f) max_age w)
        as [[data|e] wc] eqn:Hget.
      * destruct (SecureCookie_get_session_new _ _ _ _ _ _ _ _ Hst Hf Hl Hget)
          as (st1 & Hst1 & E1 & E2 & Hd & ->).
        intros [= <- <-]. split.
        -- eexists _, (set_session f (Some (length (dicts w)))).
           unfold session_resolved. simpl.
           rewrite list_lookup_insert_eq by (by eapply lookup_lt_Some).
           split; [done |]. simpl. rewrite lookup_insert_eq, Hd.
           repeat split; try done. by rewrite Hc.
        -- right. repeat split; try done. by exists data, wc, st1.
      * by rewrite (SecureCookie_get_session_fails _ _ _ _ _ _ _ _ Hst Hf Hl Hget).
  - destruct (session f) as [l0|] eqn:Hl.
    + rewrite (Custom_get_session_known _ _ _ _ _ _ _ Hst Hf Hl).
      intros [= <- <-]. split; [| by left].
      exists st, f. repeat split; try done. by rewrite Hc.
    + destruct (Custom_get_session_unresolved _ _ _ _ _ max_age Hst Hf Hl) as [e ->].
      discriminate.
Qed.

Lemma get_session_tracked w self nm max_age factory st l :
  stores w !! self = Some st -> tracked w self (resolved_name st nm) l ->
  get_session self nm max_age factory w = (Return l, w).
Proof.
  intros Hst (st' & f & Hst' & Hf & Hc & Hl).
  assert (st' = st) as -> by congruence.
  rewrite (get_session_eq _ _ _ _ _ _ Hst).
  rewrite (bind_eq _ _ _ _ _ (container_known _ _ _ _ _ _ Hst Hf)).
  by eapply Factory_get_session_known.
Qed.

Lemma get_session_returns w self nm max_age factory l w1 :
  get_session self nm max_age factory w = (Return l, w1) ->
  exists st, stores w !! self = Some st /\ tracked w1 self (resolved_name st nm) l.
Proof.
  destruct (stores w !! self) as [st|] eqn:Hst.
  - rewrite (get_session_eq _ _ _ _ _ _ Hst). intros H. exists st. split; [done |].
    destruct (sessions st !! resolved_name st nm) as [f|] eqn:Hf.
    + rewrite (bind_eq _ _ _ _ _ (container_known _ _ _ _ _ _ Hst Hf)) in H.
      exact (proj1 (Factory_get_session_returns _ _ _ _ _ _ _ _ Hst Hf H)).
    + rewrite (bind_eq _ _ _ _ _ (container_new _ _ _ _ _ Hst Hf)) in H.
      refine (proj1 (Factory_get_session_returns _ _ _ _ _ _ _ _ _ _ H)).
      * simpl. apply list_lookup_insert_eq. by eapply lookup_lt_Some.
      * simpl. apply lookup_insert_eq.
  - unfold get_session. by rewrite (bind_raise _ _ _ _ _ (the_store_none _ _ Hst)).
Qed.

Lemma get_session_again w self nm max_age factory l w1 w2 max_age' factory' :
  get_session self nm max_age factory w = (Return l, w1) ->
  world_le w1 w2 ->
  get_session self nm max_age' factory' w2 = (Return l, w2).
Proof.
  intros Hget Hle.
  destruct (get_session_returns _ _ _ _ _ _ _ Hget) as (st & Hst & Htr).
  pose proof (get_session_le self nm max_age factory w) as Hle1.
  rewrite Hget in Hle1. simpl in Hle1.
  destruct (config_le _ _ _ _ (world_le_trans _ _ _ Hle1 Hle) Hst) as (st2 & Hst2 & Hc).
  apply (get_session_tracked _ _ _ _ _ st2); [done |].
  apply (tracked_le w1); [done |].
  unfold resolved_name in *. by rewrite Hc.
Qed.

(** ** What [save_session] writes *)

Lemma Factory_save_session_eq w self nm st f :
  stores w !! self = Some st -> sessions st !! nm = Some f ->
  class_of f = SecureCookieSessionFactory ->
  Factory_save_session (self, nm) w =
  match session f with
  | None => (Return tt, w)
  | Some l =>
      match dicts w !! l with
      | Some d =>
          if negb (dict.__bool__ (items d)) || negb (modified d) then (Return tt, w)
          else save_secure_cookie (session_store f) (name f) (items d) (session_args f) w
      | None => (Raise InvalidHandle, w)
      end
  end.
Proof.
  intros Hst Hf Hc. unfold Factory_save_session.
  rewrite (bind_eq _ _ _ _ _ (the_factory_eq _ _ _ _ _ Hst Hf)). rewrite Hc.
  unfold SecureCookieSessionFactory_save_session.
  rewrite (bind_eq _ _ _ _ _ (the_factory_eq _ _ _ _ _ Hst Hf)).
  destruct (session f) as [l|]; [| done].
  unfold bind, the_dict. destruct (dicts w !! l) as [d|]; [| done].
  by destruct (negb (dict.__bool__ (items d)) || negb (modified d)).
Qed.

Lemma save_secure_cookie_eq w self nm value kwargs sg w1 :
  serializer self w = (Return sg, w1) ->
  save_secure_cookie self nm value kwargs w
  = (Return tt, set_response w1 (response w1 ++
       [{| cookie_key := nm; cookie_value := serialize sg nm value;
           cookie_kwargs := kwargs |}])).
Proof. intros Hsg. unfold save_secure_cookie. by rewrite (bind_eq _ _ _ _ _ Hsg). Qed.

(** No cookie is written for a session that was never created. *)
Lemma save_session_never_created w self nm st f :
  stores w !! self = Some st -> sessions st !! nm = Some f ->
  class_of f = SecureCookieSessionFactory -> session f = None ->
  Factory_save_session (self, nm) w = (Return tt, w).
Proof.
  intros Hst Hf Hc Hnone. rewrite (Factory_save_session_eq _ _ _ _ _ Hst Hf Hc).
  by rewrite Hnone.
Qed.

(** No cookie is written for a session that was not modified. *)
Lemma save_session_unmodified w self nm st f l d :
  stores w !! self = Some st -> sessions st !! nm = Some f ->
  class_of f = SecureCookieSessionFactory -> session f = Some l ->
  dicts w !! l = Some d -> modified d = false ->
  Factory_save_session (self, nm) w = (Return tt, w).
Proof.
  intros Hst Hf Hc Hl Hd Hm. rewrite (Factory_save_session_eq _ _ _ _ _ Hst Hf Hc).
  rewrite Hl, Hd, Hm. by rewrite orb_true_r.
Qed.

(** A modified session that holds something is serialized and set as
    a cookie with the factory's [session_args]. *)
Lemma save_session_modified w self nm st f l d sg w1 :
  stores w !! self = Some st -> sessions st !! nm = Some f ->
  class_of f = SecureCookieSessionFactory -> session f = Some l ->
  dicts w !! l = Some d -> modified d = true -> items d <> ∅ ->
  serializer (session_store f) w = (Return sg, w1) ->
  Factory_save_session (self, nm) w
  = (Return tt, set_response w1 (response w1 ++
       [{| cookie_key := name f; cookie_value := serialize sg (name f) (items d);
           cookie_kwargs := session_args f |}])).
Proof.
  intros Hst Hf Hc Hl Hd Hm Hne Hsg.
  rewrite (Factory_save_session_eq _ _ _ _ _ Hst Hf Hc). rewrite Hl, Hd, Hm.
  assert (dict.__bool__ (items d) = true) as ->.
  { destruct (dict.__bool__ (items d)) eqn:E; [done |].
    by apply bool_false_empty in E. }
  simpl. by apply save_secure_cookie_eq.
Qed.

(** C1, where the code departs from the claim: a session that exists
    and is modified but holds nothing is not saved.  [save_session]
    tests [not self.session], which is true of an empty dictionary as
    well as of [None], so no cookie is written and the response and
    the rest of the world stay as they were. *)
Theorem save_session_skips_emptied_session w self nm st f l d :
  stores w !! self = Some st -> sessions st !! nm = Some f ->
  class_of f = SecureCookieSessionFactory -> session f = Some l ->
  dicts w !! l = Some d -> modified d = true -> items d = ∅ ->
  Factory_save_session (self, nm) w = (Return tt, w).
Proof.
  intros Hst Hf Hc Hl Hd Hm He. rewrite (Factory_save_session_eq _ _ _ _ _ Hst Hf Hc).
  rewrite Hl, Hd, He. reflexivity.
Qed.

(** ** Construction does not look at the secret key *)

Lemma SessionStore_init_eq req c :
  app_config req !! config_key = Some c ->
  SessionStore_init req = Return {| config := c; sessions := ∅; serializer_slot := None |}.
Proof. intros H. unfold SessionStore_init. by rewrite H. Qed.

Lemma serializer_unbuildable w self st e :
  stores w !! self = Some st -> serializer_slot st = None ->
  SecureCookieSerializer_init (secret_key (config st)) = Raise e ->
  serializer self w = (Raise e, w).
Proof. intros Hst Hslot Hinit. rewrite (serializer_eq _ _ _ Hst). by rewrite Hslot, Hinit. Qed.

(** ** The max-age that reaches the serializer *)

Lemma get_secure_cookie_eq w self nm max_age st :
  stores w !! self = Some st ->
  get_secure_cookie self nm max_age w =
  match cookies (request w) !! nm with
  | Some v =>
      if str_bool v then
        match serializer self w with
        | (Return sg, w1) =>
            (Return (deserialize sg nm v (effective_max_age st max_age)), w1)
        | (Raise e, w1) => (Raise e, w1)
        end
      else (Return None, w)
  | None => (Return None, w)
  end.
Proof.
  intros Hst. unfold get_secure_cookie.
  rewrite (bind_eq _ _ _ _ _ (the_store_eq _ _ _ Hst)).
  unfold bind at 1. unfold gets at 1.
  destruct (cookies (request w) !! nm) as [v|]; [| done].
  destruct (str_bool v); [| done].
  unfold bind. by destruct (serializer self w) as [[sg|e] w1].
Qed.

(** The outcome of reading a cookie depends on the store only through
    its configuration and its serializer slot. *)
Lemma get_secure_cookie_frame w w2 self nm max_age st st2 :
  stores w !! self = Some st -> stores w2 !! self = Some st2 ->
  config st2 = config st -> serializer_slot st2 = serializer_slot st ->
  request w2 = request w ->
  result (get_secure_cookie self nm max_age w2)
  = result (get_secure_cookie self nm max_age w).
Proof.
  intros Hst Hst2 Hc Hslot Hreq.
  rewrite (get_secure_cookie_eq _ _ _ _ _ Hst), (get_secure_cookie_eq _ _ _ _ _ Hst2).
  rewrite Hreq. destruct (cookies (request w) !! nm) as [v|]; [| done].
  destruct (str_bool v); [| done].
  rewrite (serializer_eq _ _ _ Hst), (serializer_eq _ _ _ Hst2), Hslot, Hc.
  unfold effective_max_age. rewrite Hc.
  destruct (serializer_slot st); [done |].
  by destruct (SecureCookieSerializer_init (secret_key (config st))).
Qed.

(** Tracking a new name with the cookie-backed factory and resolving
    its session: a factory is created and tracked, and its session is a
    new dictionary built from what the cookie held. *)
Lemma container_session_creates w self n max_age st data :
  stores w !! self = Some st -> sessions st !! n = None ->
  result (get_secure_cookie self n max_age w) = Return data ->
  exists w1 st1,
    bind (_get_session_container self n SecureCookieSessionFactory)
      (fun cont => Factory_get_session cont max_age) w
    = (Return (length (dicts w)), w1) /\
    stores w1 !! self = Some st1 /\ config st1 = config st /\
    sessions st1
    = <[n := {| class_of := SecureCookieSessionFactory; name := n;
                session_store := self; session_args := cookie_args (config st);
                session := Some (length (dicts w)) |}]> (sessions st) /\
    dicts w1 = (dicts w ++ [SessionDict_init (self, n) data
                              match data with None => true | Some _ => false end])%list /\
    response w1 = response w /\ request w1 = request w.
Proof.
  intros Hst Hnone Hdata.
  rewrite (bind_eq _ _ _ _ _ (container_new _ _ _ _ _ Hst Hnone)).
  set (f0 := {| class_of := SecureCookieSessionFactory; name := n; session_store := self;
                session_args := cookie_args (config st); session := None |}).
  set (st0 := set_sessions st (<[n := f0]> (sessions st))).
  set (w0 := set_stores w (<[self := st0]> (stores w))).
  assert (stores w0 !! self = Some st0) as Hst0.
  { simpl. apply list_lookup_insert_eq. by eapply lookup_lt_Some. }
  assert (sessions st0 !! n = Some f0) as Hf0 by (simpl; apply lookup_insert_eq).
  unfold Factory_get_session.
  rewrite (bind_eq _ _ _ _ _ (the_factory_eq _ _ _ _ _ Hst0 Hf0)).
  change (class_of f0) with SecureCookieSessionFactory. cbv iota.
  destruct (get_secure_cookie self n max_age w0) as [r wc] eqn:Hget.
  assert (r = Return data) as ->.
  { rewrite <- Hdata.
    rewrite <- (get_secure_cookie_frame w w0 self n _ st st0 Hst Hst0); try done.
    by rewrite Hget. }
  destruct (SecureCookie_get_session_new w0 self n st0 f0 max_age data wc
              Hst0 Hf0 eq_refl Hget) as (st1 & Hst1 & E1 & E2 & Hd & ->).
  pose proof (get_secure_cookie_same self n max_age w0) as (_ & Hr & Hq & _ & _).
  rewrite Hget in Hr, Hq. simpl in Hr, Hq.
  eexists _, _. split; [reflexivity |]. unfold session_resolved. simpl.
  split; [apply list_lookup_insert_eq; by eapply lookup_lt_Some |].
  simpl. rewrite E1, E2, Hd, Hr, Hq. simpl.
  repeat split; try done. by rewrite insert_insert_eq.
Qed.

(** The first [get_session] for a name, with the cookie-backed
    factory. *)
Lemma get_session_creates w self nm max_age st data :
  stores w !! self = Some st ->
  sessions st !! resolved_name st nm = None ->
  result (get_secure_cookie self (resolved_name st nm)
            (MaxAge (effective_max_age st max_age)) w) = Return data ->
  exists w1 st1,
    get_session self nm max_age SecureCookieSessionFactory w
    = (Return (length (dicts w)), w1) /\
    stores w1 !! self = Some st1 /\ config st1 = config st /\
    sessions st1
    = <[resolved_name st nm :=
          {| class_of := SecureCookieSessionFactory; name := resolved_name st nm;
             session_store := self; session_args := cookie_args (config st);
             session := Some (length (dicts w)) |}]> (sessions st) /\
    dicts w1 = (dicts w ++ [SessionDict_init (self, resolved_name st nm) data
                              match data with None => true | Some _ => false end])%list /\
    response w1 = response w /\ request w1 = request w.
Proof.
  intros Hst Hnone Hdata. rewrite (get_session_eq _ _ _ _ _ _ Hst).
  by apply container_session_creates.
Qed.

(** C7, where the code departs from the claim: with the default
    configuration, in which [secret_key] is still [REQUIRED_VALUE],
    [SessionStore(request)] returns a store and [get_store] registers
    it; nothing is raised at construction. *)
Lemma store_constructed_without_secret_key :
  secret_key default_config = REQUIRED_VALUE /\
  SessionStore_init (request unconfigured_world)
  = Return {| config := default_config; sessions := ∅; serializer_slot := None |} /\
  result (get_store SessionStore_init _registry_key unconfigured_world) = Return 0.
Proof. repeat split; vm_compute; reflexivity. Qed.

(** C7 (amended): constructing a [SessionStore] does not look at
    [secret_key]: whenever the application has a configuration for the
    module, construction returns a store with that configuration, no
    session and no serializer yet, also when the key is missing or
    invalid.  The serializer is built from [secret_key] at its first
    use, and it is there (at the first serialize or deserialize) that a
    missing or empty key raises the configuration error, leaving the
    store as it was. *)
Theorem secret_key_checked_at_first_use :
  (forall req c, app_config req !! config_key = Some c ->
     SessionStore_init req
     = Return {| config := c; sessions := ∅; serializer_slot := None |}) /\
  SecureCookieSerializer_init REQUIRED_VALUE = Raise ConfigError /\
  SecureCookieSerializer_init (SecretKey "") = Raise ConfigError /\
  (forall w self st,
     stores w !! self = Some st -> serializer_slot st = None ->
     SecureCookieSerializer_init (secret_key (config st)) = Raise ConfigError ->
     serializer self w = (Raise ConfigError, w) /\
     (forall nm value kwargs,
        save_secure_cookie self nm value kwargs w = (Raise ConfigError, w)) /\
     (forall nm v max_age, cookies (request w) !! nm = Some v -> str_bool v = true ->
        get_secure_cookie self nm max_age w = (Raise ConfigError, w))).
Proof.
  split; [exact SessionStore_init_eq |].
  split; [reflexivity |]. split; [reflexivity |].
  intros w self st Hst Hslot Hinit.
  pose proof (serializer_unbuildable _ _ _ _ Hst Hslot Hinit) as Hser.
  split; [done |]. split.
  - intros nm value kwargs. unfold save_secure_cookie.
    by rewrite (bind_raise _ _ _ _ _ Hser).
  - intros nm v max_age Hv Hb. rewrite (get_secure_cookie_eq _ _ _ _ _ Hst).
    by rewrite Hv, Hb, Hser.
Qed.

(** C8: the max-age that reaches [deserialize] is the argument itself
    when one is passed, [None] ("no limit") included, and the store's
    [session_max_age] only when the argument is [DEFAULT_VALUE]; this
    holds for [get_secure_cookie] and for [get_session], which resolves
    the marker before handing the value to the factory, so that the
    session created by the cookie-backed factory holds what
    [deserialize] gave for that max-age. *)
Theorem max_age_three_way :
  (forall st m, effective_max_age st (MaxAge m) = m) /\
  (forall st, effective_max_age st DEFAULT_VALUE = session_max_age (config st)) /\
  (forall w self nm max_age st v sg w1,
     stores w !! self = Some st ->
     cookies (request w) !! nm = Some v -> str_bool v = true ->
     serializer self w = (Return sg, w1) ->
     get_secure_cookie self nm max_age w
     = (Return (deserialize sg nm v (effective_max_age st max_age)), w1)) /\
  (forall w self nm max_age factory st,
     stores w !! self = Some st ->
     get_session self nm max_age factory w
     = get_session self nm (MaxAge (effective_max_age st max_age)) factory w) /\
  (forall w self nm max_age st v sg w1,
     stores w !! self = Some st ->
     sessions st !! resolved_name st nm = None ->
     cookies (request w) !! resolved_name st nm = Some v -> str_bool v = true ->
     serializer self w = (Return sg, w1) ->
     let data := deserialize sg (resolved_name st nm) v (effective_max_age st max_age) in
     exists w2,
       get_session self nm max_age SecureCookieSessionFactory w
       = (Return (length (dicts w)), w2) /\
       dicts w2 !! length (dicts w)
       = Some (SessionDict_init (self, resolved_name st nm) data
                 match data with None => true | Some _ => false end)).
Proof.
  split; [reflexivity |]. split; [reflexivity |]. split.
  { intros w self nm max_age st v sg w1 Hst Hv Hb Hser.
    rewrite (get_secure_cookie_eq _ _ _ _ _ Hst). by rewrite Hv, Hb, Hser. }
  split.
  { intros w self nm max_age factory st Hst.
    by rewrite !(get_session_eq _ _ _ _ _ _ Hst). }
  intros w self nm max_age st v sg w1 Hst Hnone Hv Hb Hser data.
  destruct (get_session_creates w self nm max_age st data Hst Hnone)
    as (w2 & st1 & Hget & _ & _ & _ & Hd & _).
  { rewrite (get_secure_cookie_eq _ _ _ _ _ Hst). by rewrite Hv, Hb, Hser. }
  exists w2. split; [exact Hget |]. rewrite Hd.
  apply list_lookup_middle; reflexivity.
Qed.

(** ** The registry holds one store per key *)

Lemma get_store_registered w factory key s :
  registry (request w) !! key = Some s -> get_store factory key w = (Return s, w).
Proof. intros H. unfold get_store, bind, gets. by rewrite H. Qed.

Lemma get_store_new w factory key st :
  registry (request w) !! key = None -> factory (request w) = Return st ->
  get_store factory key w
  = (Return (length (stores w)),
     set_registry (set_stores w (stores w ++ [st]))
       (<[key := length (stores w)]> (registry (request w)))).
Proof. intros H Hf. unfold get_store, bind, gets. by rewrite H, Hf. Qed.

Lemma get_store_fails w factory key e :
  registry (request w) !! key = None -> factory (request w) = Raise e ->
  get_store factory key w = (Raise e, w).
Proof. intros H Hf. unfold get_store, bind, gets. by rewrite H, Hf. Qed.

Lemma get_store_returns w factory key s w1 :
  get_store factory key w = (Return s, w1) -> registry (request w1) !! key = Some s.
Proof.
  destruct (registry (request w) !! key) as [s0|] eqn:Hk.
  - rewrite (get_store_registered _ _ _ _ Hk). by intros [= <- <-].
  - destruct (factory (request w)) as [st|e] eqn:Hf.
    + rewrite (get_store_new _ _ _ _ Hk Hf). intros [= <- <-]. simpl.
      apply lookup_insert_eq.
    + by rewrite (get_store_fails _ _ _ _ Hk Hf).
Qed.

#[local] Instance same_request_preorder : PreOrder same_request.
Proof. split; unfold same_request; [by intros ? | intros ???; congruence]. Qed.

Lemma put_store_req self st : steps same_request (put_store self st).
Proof. by intros w. Qed.

Lemma new_dict_req d : steps same_request (new_dict d).
Proof. by intros w. Qed.

Lemma on_dict_req {A} l (m : Eff SessionDict A) : steps same_request (on_dict l m).
Proof.
  intros w. unfold on_dict. destruct (dicts w !! l) as [d|]; [| done].
  by destruct (m d).
Qed.

Lemma serializer_req self : steps same_request (serializer self).
Proof.
  eapply steps_weaken; [| apply serializer_same]. by intros w w' (_ & _ & Hq & _).
Qed.

Lemma add_cookie_req c :
  steps same_request (modify (fun w => set_response w (response w ++ [c]))).
Proof. by intros w. Qed.

Create HintDb steps.
#[local] Hint Resolve put_store_req new_dict_req on_dict_req serializer_req
  add_cookie_req : steps.

(** Walk down a computation, leaving the primitive updates to the
    hints. *)
Ltac step_walk :=
  repeat match goal with
         | |- steps _ (bind _ _) => step_bind
         | |- forall _, _ => intro
         | |- steps _ (match ?x with _ => _ end) => destruct x
         | |- steps _ ?m => first [ step_done | solve [auto with steps] | progress unfold m ]
         end.

Lemma put_factory_req c f : steps same_request (put_factory c f).
Proof. unfold put_factory. step_walk. Qed.
#[local] Hint Resolve put_factory_req : steps.

Lemma get_secure_cookie_req self nm max_age :
  steps same_request (get_secure_cookie self nm max_age).
Proof. unfold get_secure_cookie. step_walk. Qed.
#[local] Hint Resolve get_secure_cookie_req : steps.

Lemma save_secure_cookie_req self nm value kwargs :
  steps same_request (save_secure_cookie self nm value kwargs).
Proof. unfold save_secure_cookie. step_walk. Qed.
#[local] Hint Resolve save_secure_cookie_req : steps.

Lemma Factory_get_session_req c max_age :
  steps same_request (Factory_get_session c max_age).
Proof.
  unfold Factory_get_session, SecureCookieSessionFactory_get_session,
    CustomBackendSessionFactory_get_session, _get_by_sid.
  step_walk.
Qed.
#[local] Hint Resolve Factory_get_session_req : steps.

Lemma _get_session_container_req self nm factory :
  steps same_request (_get_session_container self nm factory).
Proof. unfold _get_session_container, BaseSessionFactory_init. step_walk. Qed.
#[local] Hint Resolve _get_session_container_req : steps.

Lemma get_session_req self nm max_age factory :
  steps same_request (get_session self nm max_age factory).
Proof. unfold get_session. step_walk. Qed.

Lemma set_secure_cookie_req self nm value kwargs :
  steps same_request (set_secure_cookie self nm value kwargs).
Proof. unfold set_secure_cookie. step_walk. Qed.

Lemma Factory_save_session_req c : steps same_request (Factory_save_session c).
Proof.
  unfold Factory_save_session, SecureCookieSessionFactory_save_session. step_walk.
Qed.

Lemma save_sessions_req self : steps same_request (save_sessions self).
Proof.
  unfold save_sessions. step_bind; [step_done |]. intros st.
  induction (map_to_list (sessions st)) as [|[nm f] l IH]; simpl; [step_done |].
  step_bind; [apply Factory_save_session_req | intros _; exact IH].
Qed.

(** A binding of the registry survives every call but a [set_store]
    on its key. *)
Lemma run_call_keeps_key c key s w :
  leaves_key key c -> registry (request w) !! key = Some s ->
  registry (request (after (run_call c w))) !! key = Some s.
Proof.
  intros Hc Hk.
  assert (forall m : Eff World unit, steps same_request m ->
            registry (request (after (m w))) !! key = Some s) as Hsame.
  { intros m Hm. by rewrite (Hm w). }
  destruct c; simpl in *.
  - unfold discard, bind.
    destruct (get_store factory key0 w) as [[s0|e] w1] eqn:E; simpl.
    + destruct (registry (request w) !! key0) as [s1|] eqn:Hk0.
      * rewrite (get_store_registered _ _ _ _ Hk0) in E. by injection E as <- <-.
      * destruct (factory (request w)) as [st|e] eqn:Hf.
        -- rewrite (get_store_new _ _ _ _ Hk0 Hf) in E. injection E as <- <-. simpl.
           rewrite lookup_insert_ne; [done | congruence].
        -- by rewrite (get_store_fails _ _ _ _ Hk0 Hf) in E.
    + destruct (registry (request w) !! key0) as [s1|] eqn:Hk0.
      * by rewrite (get_store_registered _ _ _ _ Hk0) in E.
      * destruct (factory (request w)) as [st|e'] eqn:Hf.
        -- by rewrite (get_store_new _ _ _ _ Hk0 Hf) in E.
        -- rewrite (get_store_fails _ _ _ _ Hk0 Hf) in E. by injection E as <- <-.
  - unfold set_store, modify, after. simpl. by rewrite lookup_insert_ne.
  - apply Hsame, steps_discard; [apply _ | apply get_session_req].
  - apply Hsame, steps_discard; [apply _ | apply get_secure_cookie_req].
  - apply Hsame, set_secure_cookie_req.
  - apply Hsame, save_secure_cookie_req.
  - apply Hsame, save_sessions_req.
  - apply Hsame, on_dict_req.
Qed.

Lemma run_calls_keep_key cs key s w :
  Forall (leaves_key key) cs -> registry (request w) !! key = Some s ->
  registry (request (run_calls cs w)) !! key = Some s.
Proof.
  intros Hcs. revert w. induction Hcs as [|c cs Hc _ IH]; intros w Hk; simpl; [done |].
  by apply IH, run_call_keeps_key.
Qed.

(** C9: [get_store] is idempotent within a request.  A first call,
    when the key is not registered, builds a store with the factory and
    registers it under the key; once a call has returned a store, every
    later call with that key returns the same handle, whatever factory
    it is given, and changes nothing (no store is built), also after
    any other calls that do not [set_store] this key; and after
    [set_store(store)], [get_store] returns that store. *)
Theorem get_store_idempotent :
  (forall w factory key st,
     registry (request w) !! key = None -> factory (request w) = Return st ->
     exists w1,
       get_store factory key w = (Return (length (stores w)), w1) /\
       stores w1 !! length (stores w) = Some st /\
       registry (request w1) !! key = Some (length (stores w))) /\
  (forall w factory key s w1,
     get_store factory key w = (Return s, w1) ->
     forall factory', get_store factory' key w1 = (Return s, w1)) /\
  (forall w factory key s w1 cs,
     get_store factory key w = (Return s, w1) -> Forall (leaves_key key) cs ->
     forall factory',
       get_store factory' key (run_calls cs w1) = (Return s, run_calls cs w1)) /\
  (forall w store key factory,
     get_store factory key (after (set_store store key w))
     = (Return store, after (set_store store key w))).
Proof.
  split.
  { intros w factory key st Hk Hf. eexists.
    split; [by apply get_store_new |]. simpl.
    split; [apply list_lookup_middle; reflexivity | apply lookup_insert_eq]. }
  split.
  { intros w factory key s w1 H factory'.
    apply get_store_registered. by eapply get_store_returns. }
  split.
  { intros w factory key s w1 cs H Hcs factory'.
    apply get_store_registered, run_calls_keep_key; [done |].
    by eapply get_store_returns. }
  intros w store key factory. apply get_store_registered. simpl.
  apply lookup_insert_eq.
Qed.

(** ** One container per name, for the life of the store *)

Lemma get_session_first_call w self nm max_age factory st l w1 :
  stores w !! self = Some st -> sessions st !! resolved_name st nm = None ->
  get_session self nm max_age factory w = (Return l, w1) ->
  factory = SecureCookieSessionFactory /\ l = length (dicts w) /\
  exists st1 f d,
    stores w1 !! self = Some st1 /\ sessions st1 !! resolved_name st nm = Some f /\
    class_of f = factory /\ session f = Some l /\
    dicts w1 !! l = Some d /\ container d = (self, resolved_name st nm) /\
    modified d = false.
Proof.
  intros Hst Hnone. set (n := resolved_name st nm) in *.
  rewrite (get_session_eq _ _ _ _ _ _ Hst). fold n.
  rewrite (bind_eq _ _ _ _ _ (container_new _ _ _ _ _ Hst Hnone)).
  set (f0 := {| class_of := factory; name := n; session_store := self;
                session_args := cookie_args (config st); session := None |}).
  set (st0 := set_sessions st (<[n := f0]> (sessions st))).
  set (w0 := set_stores w (<[self := st0]> (stores w))).
  assert (stores w0 !! self = Some st0) as Hst0.
  { simpl. apply list_lookup_insert_eq. by eapply lookup_lt_Some. }
  assert (sessions st0 !! n = Some f0) as Hf0 by (simpl; apply lookup_insert_eq).
  intros H.
  destruct (Factory_get_session_returns _ _ _ _ _ _ _ _ Hst0 Hf0 H)
    as [_ [[Hl _] | (_ & Hc & -> & data & wc & st1 & _ & Hst1 & E1 & E2 & Hd & ->)]];
    [discriminate |].
  split; [exact Hc |]. split; [reflexivity |].
  eexists _, _, _.
  unfold session_resolved. simpl.
  split; [apply list_lookup_insert_eq; by eapply lookup_lt_Some |].
  simpl. split; [apply lookup_insert_eq |].
  split; [reflexivity |]. split; [simpl; by rewrite Hd |].
  split; [rewrite Hd; apply list_lookup_middle; reflexivity |].
  split; reflexivity.
Qed.

Lemma setitem_then_getitem w l d key value :
  dicts w !! l = Some d ->
  result (on_dict l (__getitem__ key) (after (on_dict l (__setitem__ key value) w)))
  = Return value.
Proof.
  intros Hd. unfold on_dict at 2. rewrite Hd. rewrite setitem_eq. unfold after. simpl.
  unfold on_dict. simpl.
  rewrite list_lookup_insert_eq by (by eapply lookup_lt_Some).
  unfold __getitem__, dict.__getitem__, result. simpl.
  by rewrite lookup_insert_eq.
Qed.

(** C4: within one store, once [get_session] has returned a container
    for a name, every later call with the same name returns that same
    object, whatever [factory] or [max_age] it is given and whatever
    the handler has called in between, and it changes nothing; the
    first call for a name creates the factory instance with the
    supplied factory and a new container owned by it, and does return
    with the cookie-backed factory whenever the cookie can be read; a
    mutation made through the handle from one call is seen through the
    handle from the other. *)
Theorem get_session_one_container_per_name :
  (forall w self nm max_age factory l w1,
     get_session self nm max_age factory w = (Return l, w1) ->
     forall cs max_age' factory',
       get_session self nm max_age' factory' (run_calls cs w1)
       = (Return l, run_calls cs w1)) /\
  (forall w self nm max_age factory st l w1,
     stores w !! self = Some st -> sessions st !! resolved_name st nm = None ->
     get_session self nm max_age factory w = (Return l, w1) ->
     dicts w !! l = None /\
     exists st1 f d,
       stores w1 !! self = Some st1 /\ sessions st1 !! resolved_name st nm = Some f /\
       class_of f = factory /\ session f = Some l /\
       dicts w1 !! l = Some d /\ container d = (self, resolved_name st nm) /\
       modified d = false) /\
  (forall w self nm max_age st data,
     stores w !! self = Some st -> sessions st !! resolved_name st nm = None ->
     result (get_secure_cookie self (resolved_name st nm)
               (MaxAge (effective_max_age st max_age)) w) = Return data ->
     result (get_session self nm max_age SecureCookieSessionFactory w)
     = Return (length (dicts w))) /\
  (forall w self nm max_age factory l w1 d key value max_age' factory',
     get_session self nm max_age factory w = (Return l, w1) ->
     dicts w1 !! l = Some d ->
     let w2 := after (on_dict l (__setitem__ key value) w1) in
     exists l',
       get_session self nm max_age' factory' w2 = (Return l', w2) /\ l' = l /\
       result (on_dict l' (__getitem__ key) w2) = Return value).
Proof.
  split.
  { intros w self nm max_age factory l w1 H cs max_age' factory'.
    eapply get_session_again; [exact H | apply run_calls_le]. }
  split.
  { intros w self nm max_age factory st l w1 Hst Hnone H.
    destruct (get_session_first_call _ _ _ _ _ _ _ _ Hst Hnone H) as (_ & -> & Hrest).
    split; [by apply lookup_ge_None_2 | exact Hrest]. }
  split.
  { intros w self nm max_age st data Hst Hnone Hdata.
    destruct (get_session_creates _ _ _ _ _ _ Hst Hnone Hdata) as (w1 & st1 & -> & _).
    reflexivity. }
  intros w self nm max_age factory l w1 d key value max_age' factory' H Hd w2.
  exists l. split; [| split; [reflexivity | by eapply setitem_then_getitem]].
  eapply get_session_again; [exact H |].
  apply (on_dict_le l (__setitem__ key value)). intros d0. apply calls_update_le.
Qed.

(** ** What [set_secure_cookie] can raise *)

Lemma raises_ret E {A} (a : A) : raises_only E (ret a).
Proof. intros w e. discriminate. Qed.

Lemma raises_gets E {A} (f : World -> A) : raises_only E (gets f).
Proof. intros w e. discriminate. Qed.

Lemma raises_modify E f : raises_only E (modify f).
Proof. intros w e. discriminate. Qed.

Lemma raises_raise (E : exn -> Prop) {A} e : E e -> raises_only E (raise (A := A) e).
Proof. intros He w e'. by intros [= <-]. Qed.

Lemma raises_bind E {A B} (m : Eff World A) (k : A -> Eff World B) :
  raises_only E m -> (forall a, raises_only E (k a)) -> raises_only E (bind m k).
Proof.
  intros Hm Hk w e. unfold bind, result. specialize (Hm w).
  destruct (m w) as [[a|e'] w1]; simpl in *.
  - apply Hk.
  - intros [= <-]. by apply Hm.
Qed.

Lemma raises_the_store (E : exn -> Prop) self :
  E InvalidHandle -> raises_only E (the_store self).
Proof.
  intros He w e. unfold the_store. destruct (stores w !! self); [discriminate |].
  by intros [= <-].
Qed.

Lemma raises_the_factory (E : exn -> Prop) c :
  E InvalidHandle -> raises_only E (the_factory c).
Proof.
  intros He. unfold the_factory. apply raises_bind; [by apply raises_the_store |].
  intros st. destruct (sessions st !! snd c); [apply raises_ret | by apply raises_raise].
Qed.

Lemma raises_on_dict (E : exn -> Prop) {A} l (m : Eff SessionDict A) :
  E InvalidHandle -> (forall d e, result (m d) = Raise e -> E e) ->
  raises_only E (on_dict l m).
Proof.
  intros He Hm w e. unfold on_dict. destruct (dicts w !! l) as [d|].
  - specialize (Hm d). destruct (m d) as [r d']. simpl in *. apply Hm.
  - by intros [= <-].
Qed.

Lemma raises_serializer self : raises_only not_assertion (serializer self).
Proof.
  unfold serializer. apply raises_bind; [by apply raises_the_store |]. intros st.
  destruct (serializer_slot st); [apply raises_ret |].
  apply raises_bind; [| intros sg; apply raises_bind;
                          [apply raises_modify | intros; apply raises_ret]].
  intros w e. unfold lift, result. simpl. unfold SecureCookieSerializer_init.
  destruct (secret_key (config st)) as [|k]; [by intros [= <-] |].
  destruct (str_bool k); [discriminate | by intros [= <-]].
Qed.

Ltac raises_walk :=
  repeat match goal with
         | |- raises_only _ (bind _ _) => apply raises_bind
         | |- forall _, _ => intro
         | |- raises_only _ (match ?x with _ => _ end) => destruct x
         | |- raises_only _ ?m =>
             first [ apply raises_ret | apply raises_gets | apply raises_modify
                   | apply raises_raise; done
                   | apply raises_the_store; done
                   | apply raises_the_factory; done
                   | apply raises_serializer
                   | progress unfold m ]
         end.

Lemma raises_get_secure_cookie self nm max_age :
  raises_only not_assertion (get_secure_cookie self nm max_age).
Proof. unfold get_secure_cookie. raises_walk. Qed.

Lemma raises_put_factory c f : raises_only not_assertion (put_factory c f).
Proof. unfold put_factory, put_store. raises_walk. Qed.

Lemma raises_Factory_get_session c max_age :
  raises_only not_assertion (Factory_get_session c max_age).
Proof.
  unfold Factory_get_session, SecureCookieSessionFactory_get_session,
    CustomBackendSessionFactory_get_session, _get_by_sid.
  raises_walk; try apply raises_get_secure_cookie; try apply raises_put_factory.
Qed.

Lemma raises__get_session_container self nm factory :
  raises_only not_assertion (_get_session_container self nm factory).
Proof. unfold _get_session_container, BaseSessionFactory_init, put_store. raises_walk. Qed.

Lemma set_secure_cookie_no_assertion self nm d kwargs :
  raises_only not_assertion (set_secure_cookie self nm (VDict d) kwargs).
Proof.
  unfold set_secure_cookie.
  apply raises_bind; [apply raises__get_session_container |]. intros cont.
  apply raises_bind; [apply raises_Factory_get_session |]. intros l.
  apply raises_bind; [apply raises_on_dict; [done |] |].
  { intros d0 e. rewrite update_eq. discriminate. }
  intros _. apply raises_bind; [by apply raises_the_factory |]. intros f.
  apply raises_put_factory.
Qed.

(** ** [set_secure_cookie] on a session that exists or is created *)

Lemma SessionDict_init_items c data is_new :
  items (SessionDict_init c data is_new) = default ∅ data.
Proof.
  unfold SessionDict_init, after. simpl. destruct data as [d|]; simpl.
  - destruct (dict.__bool__ d) eqn:E.
    + apply (right_id_L ∅ (∪)).
    + apply bool_false_empty in E. subst. apply (right_id_L ∅ (∪)).
  - apply (right_id_L ∅ (∪)).
Qed.

Lemma bound_to_le w w' self nm cls :
  world_le w w' -> bound_to w self nm cls -> bound_to w' self nm cls.
Proof.
  intros (_ & _ & _ & Hs & _) (st & f & Hst & Hf & Hc).
  destruct (Hs _ _ Hst) as (st' & Hst' & _ & Hfs).
  destruct (Hfs _ _ Hf) as (f' & Hf' & Hc' & _). exists st', f'.
  repeat split; [done | done | congruence].
Qed.

Lemma Factory_get_session_base w self nm max_age :
  bound_to w self nm BaseSessionFactory ->
  Factory_get_session (self, nm) max_age w = (Raise NotImplementedError, w).
Proof.
  intros (st & f & Hst & Hf & Hc). unfold Factory_get_session.
  rewrite (bind_eq _ _ _ _ _ (the_factory_eq _ _ _ _ _ Hst Hf)). by rewrite Hc.
Qed.

Lemma set_secure_cookie_base w self nm value kwargs :
  bound_to w self nm BaseSessionFactory ->
  set_secure_cookie self nm (VDict value) kwargs w = (Raise NotImplementedError, w).
Proof.
  intros Hb. pose proof Hb as (st & f & Hst & Hf & _). unfold set_secure_cookie.
  rewrite (bind_eq _ _ _ _ _ (container_known _ _ _ _ _ _ Hst Hf)).
  by rewrite (bind_raise _ _ _ _ _ (Factory_get_session_base _ _ _ DEFAULT_VALUE Hb)).
Qed.

Lemma merge_into_session w self nm st f l d0 value kwargs :
  stores w !! self = Some st -> sessions st !! nm = Some f -> dicts w !! l = Some d0 ->
  bind (on_dict l (update value))
    (fun _ => bind (the_factory (self, nm))
                (fun f => put_factory (self, nm)
                            (set_session_args f (kwargs ∪ session_args f)))) w
  = (Return tt, cookie_merged w self nm st f l d0 value kwargs).
Proof.
  intros Hst Hf Hd. unfold bind at 1. unfold on_dict. rewrite Hd, update_eq.
  set (w1 := set_dicts w _).
  assert (stores w1 !! self = Some st) as Hst1 by done.
  rewrite (bind_eq _ _ _ _ _ (the_factory_eq _ _ _ _ _ Hst1 Hf)).
  unfold put_factory. simpl fst. simpl snd.
  by rewrite (bind_eq _ _ _ _ _ (the_store_eq _ _ _ Hst1)).
Qed.

Lemma set_secure_cookie_existing w self nm st f l d0 value kwargs :
  stores w !! self = Some st -> sessions st !! nm = Some f ->
  class_of f = SecureCookieSessionFactory -> session f = Some l ->
  dicts w !! l = Some d0 ->
  set_secure_cookie self nm (VDict value) kwargs w
  = (Return tt, cookie_merged w self nm st f l d0 value kwargs).
Proof.
  intros Hst Hf Hc Hl Hd. unfold set_secure_cookie.
  rewrite (bind_eq _ _ _ _ _ (container_known _ _ _ _ _ _ Hst Hf)).
  assert (class_of f <> BaseSessionFactory) as Hc' by (by rewrite Hc).
  rewrite (bind_eq _ _ _ _ _ (Factory_get_session_known _ _ _ _ _ _ DEFAULT_VALUE
                                Hst Hf Hc' Hl)).
  by apply merge_into_session.
Qed.

Lemma set_secure_cookie_creates w self nm st data value kwargs :
  stores w !! self = Some st -> sessions st !! nm = None ->
  result (get_secure_cookie self nm DEFAULT_VALUE w) = Return data ->
  let l := length (dicts w) in
  let d0 := SessionDict_init (self, nm) data
              match data with None => true | Some _ => false end in
  exists w1 st1,
    set_secure_cookie self nm (VDict value) kwargs w = (Return tt, w1) /\
    stores w1 !! self = Some st1 /\
    sessions st1 !! nm
    = Some {| class_of := SecureCookieSessionFactory; name := nm; session_store := self;
              session_args := kwargs ∪ cookie_args (config st); session := Some l |} /\
    dicts w1 !! l = Some (on_update (set_items d0 (value ∪ items d0))) /\
    (forall l', l' < l -> dicts w1 !! l' = dicts w !! l') /\
    response w1 = response w.
Proof.
  intros Hst Hnone Hdata l d0. subst l d0.
  destruct (container_session_creates _ _ _ _ _ _ Hst Hnone Hdata)
    as (wa & sta & Hforce & Hsta & Hca & Hsa & Hda & Hra & Hqa).
  pose proof (container_new _ _ _ SecureCookieSessionFactory _ Hst Hnone) as Hcont.
  rewrite (bind_eq _ _ _ _ _ Hcont) in Hforce.
  unfold set_secure_cookie.
  rewrite (bind_eq _ _ _ _ _ Hcont), (bind_eq _ _ _ _ _ Hforce).
  pose proof (lookup_insert_eq (sessions st) nm
                {| class_of := SecureCookieSessionFactory; name := nm;
                   session_store := self; session_args := cookie_args (config st);
                   session := Some (length (dicts w)) |}) as Hfa.
  rewrite <- Hsa in Hfa.
  pose proof (list_lookup_middle (dicts w) []
                (SessionDict_init (self, nm) data
                   match data with None => true | Some _ => false end)
                (length (dicts w)) eq_refl) as Hdl.
  rewrite <- Hda in Hdl.
  rewrite (merge_into_session _ _ _ _ _ _ _ value kwargs Hsta Hfa Hdl).
  eexists _, _. split; [reflexivity |]. unfold cookie_merged. simpl.
  split; [apply list_lookup_insert_eq; by eapply lookup_lt_Some |].
  simpl. split; [by rewrite lookup_insert_eq |].
  split; [apply list_lookup_insert_eq; by eapply lookup_lt_Some |].
  split; [| done].
  intros l' Hl'. rewrite list_lookup_insert_ne by lia.
  rewrite Hda. by apply lookup_app_l.
Qed.

Lemma set_secure_cookie_unreadable w self nm st f e wr value kwargs :
  stores w !! self = Some st -> sessions st !! nm = Some f ->
  class_of f = SecureCookieSessionFactory -> session f = None ->
  get_secure_cookie (session_store f) (name f) DEFAULT_VALUE w = (Raise e, wr) ->
  set_secure_cookie self nm (VDict value) kwargs w = (Raise e, wr).
Proof.
  intros Hst Hf Hc Hnone Hget. unfold set_secure_cookie.
  rewrite (bind_eq _ _ _ _ _ (container_known _ _ _ _ _ _ Hst Hf)).
  apply bind_raise. unfold Factory_get_session.
  rewrite (bind_eq _ _ _ _ _ (the_factory_eq _ _ _ _ _ Hst Hf)). rewrite Hc.
  by eapply SecureCookie_get_session_fails.
Qed.


(** ** The flag over the life of a container *)

Lemma modified_for_life cs w l d :
  dicts w !! l = Some d -> modified d = true ->
  exists d', dicts (run_calls cs w) !! l = Some d' /\ modified d' = true.
Proof.
  intros Hd Hm. destruct (run_calls_le cs w) as (_ & _ & _ & _ & Hds).
  destruct (Hds _ _ Hd) as (d' & Hd' & _ & _ & Hm'). eauto.
Qed.

(** C2 (amended): a freshly constructed [SessionDict] has
    [modified = False]; after [__setitem__], [clear], [update],
    [setdefault], and after [__delitem__] or [pop] of a present key,
    [modified] is [True]; [__delitem__] of an absent key raises
    [KeyError] and changes nothing; once [True] the flag stays [True]
    through every later method call and through everything a handler
    calls on the store; and [pop] of an absent key with no default
    raises [KeyError] and leaves mapping and flag unchanged. *)
Theorem SessionDict_modified_tracking :
  (forall cont data is_new, modified (SessionDict_init cont data is_new) = false) /\
  (forall self key value, modified (after (__setitem__ key value self)) = true) /\
  (forall self key, is_Some (items self !! key) ->
     modified (after (__delitem__ key self)) = true) /\
  (forall self key, items self !! key = None ->
     __delitem__ key self = (Raise (KeyError key), self)) /\
  (forall self, modified (after (clear self)) = true) /\
  (forall self other, modified (after (update other self)) = true) /\
  (forall self key default, modified (after (setdefault key default self)) = true) /\
  (forall self key args, is_Some (items self !! key) ->
     modified (after (pop key args self)) = true) /\
  (forall ms self, modified self = true -> modified (call_methods ms self) = true) /\
  (forall cs w l d, dicts w !! l = Some d -> modified d = true ->
     exists d', dicts (run_calls cs w) !! l = Some d' /\ modified d' = true) /\
  (forall self key, items self !! key = None ->
     pop key None self = (Raise (KeyError key), self)).
Proof.
  split; [reflexivity |].
  split; [reflexivity |].
  split; [intros self key [v Hv]; by rewrite (delitem_present _ _ _ Hv) |].
  split; [intros self key H; by apply delitem_absent |].
  split; [reflexivity |].
  split; [reflexivity |].
  split.
  { intros self key default. destruct (items self !! key) as [v|] eqn:Hk.
    - by rewrite (setdefault_present _ _ _ _ Hk).
    - by rewrite (setdefault_absent _ _ _ Hk). }
  split; [intros self key args [v Hv]; by rewrite (pop_present _ _ _ _ Hv) |].
  split; [intros ms self H; by apply (call_methods_le ms self) |].
  split; [intros cs w l d; apply modified_for_life |].
  intros self key H. by apply pop_absent_no_default.
Qed.

(** ** The serializer is built once *)

#[local] Instance slots_le_preorder : PreOrder slots_le.
Proof.
  split.
  - intros w i st H. exists st. split; [done |]. split; [done | by left].
  - intros w1 w2 w3 H1 H2 i st H. destruct (H1 _ _ H) as (st2 & Hst2 & Hc & Hs).
    destruct (H2 _ _ Hst2) as (st3 & Hst3 & Hc' & Hs'). exists st3.
    split; [done |]. split; [congruence |].
    destruct Hs as [Hs|(Hn & sg & Hi & Hs)], Hs' as [Hs'|(Hn' & sg' & Hi' & Hs')].
    + left. congruence.
    + right. split; [congruence |]. exists sg'. split; [congruence | done].
    + right. split; [done |]. exists sg. split; [done | congruence].
    + congruence.
Qed.

Lemma put_store_slots w self st st' :
  stores w !! self = Some st -> slot_le st st' ->
  slots_le w (after (put_store self st' w)).
Proof.
  intros Hst Hle i st0 Hi. rewrite put_store_after. simpl.
  destruct (decide (i = self)) as [->|Hne].
  - rewrite list_lookup_insert_eq by (by eapply lookup_lt_Some).
    exists st'. split; [done |]. congruence.
  - rewrite list_lookup_insert_ne by done. exists st0.
    split; [done |]. split; [done | by left].
Qed.

Lemma same_stores_slots w w' : stores w' = stores w -> slots_le w w'.
Proof. intros E i st H. exists st. rewrite E. split; [done |]. split; [done | by left]. Qed.

Lemma serializer_slots self : steps slots_le (serializer self).
Proof.
  intros w. destruct (stores w !! self) as [st|] eqn:Hst.
  - rewrite (serializer_eq _ _ _ Hst). destruct (serializer_slot st) eqn:Hslot.
    + reflexivity.
    + destruct (SecureCookieSerializer_init _) as [sg|e] eqn:Hinit; [| reflexivity].
      apply (put_store_slots w self st); [done |]. split; [done |]. right.
      split; [done |]. by exists sg.
  - unfold serializer. rewrite (bind_raise _ _ _ _ _ (the_store_none _ _ Hst)). reflexivity.
Qed.

Lemma put_factory_slots c f : steps slots_le (put_factory c f).
Proof.
  unfold put_factory. apply steps_with_store; [apply _ |]. intros w st Hst.
  apply (put_store_slots w (fst c) st); [done |]. split; [done | by left].
Qed.

Lemma new_dict_slots d : steps slots_le (new_dict d).
Proof. intros w. by apply same_stores_slots. Qed.

Lemma on_dict_slots {A} l (m : Eff SessionDict A) : steps slots_le (on_dict l m).
Proof.
  intros w. apply same_stores_slots. unfold on_dict.
  destruct (dicts w !! l) as [d|]; [| done]. by destruct (m d).
Qed.

Lemma add_cookie_slots c :
  steps slots_le (modify (fun w => set_response w (response w ++ [c]))).
Proof. intros w. by apply same_stores_slots. Qed.

Lemma _get_session_container_slots self nm factory :
  steps slots_le (_get_session_container self nm factory).
Proof.
  intros w. destruct (stores w !! self) as [st|] eqn:Hst.
  - destruct (sessions st !! nm) as [f|] eqn:Hf.
    + rewrite (container_known _ _ _ _ _ _ Hst Hf). reflexivity.
    + rewrite (container_new _ _ _ _ _ Hst Hf).
      apply (put_store_slots w self st); [done |]. split; [done | by left].
  - rewrite (container_invalid _ _ _ _ Hst). reflexivity.
Qed.

#[local] Hint Resolve serializer_slots put_factory_slots new_dict_slots on_dict_slots
  add_cookie_slots _get_session_container_slots : steps.

Lemma get_secure_cookie_slots self nm max_age :
  steps slots_le (get_secure_cookie self nm max_age).
Proof. unfold get_secure_cookie. step_walk. Qed.
#[local] Hint Resolve get_secure_cookie_slots : steps.

Lemma save_secure_cookie_slots self nm value kwargs :
  steps slots_le (save_secure_cookie self nm value kwargs).
Proof. unfold save_secure_cookie. step_walk. Qed.
#[local] Hint Resolve save_secure_cookie_slots : steps.

Lemma Factory_get_session_slots c max_age :
  steps slots_le (Factory_get_session c max_age).
Proof.
  unfold Factory_get_session, SecureCookieSessionFactory_get_session,
    CustomBackendSessionFactory_get_session, _get_by_sid.
  step_walk.
Qed.
#[local] Hint Resolve Factory_get_session_slots : steps.

Lemma get_session_slots self nm max_age factory :
  steps slots_le (get_session self nm max_age factory).
Proof. unfold get_session. step_walk. Qed.

Lemma set_secure_cookie_slots self nm value kwargs :
  steps slots_le (set_secure_cookie self nm value kwargs).
Proof. unfold set_secure_cookie. step_walk. Qed.

Lemma Factory_save_session_slots c : steps slots_le (Factory_save_session c).
Proof.
  unfold Factory_save_session, SecureCookieSessionFactory_save_session. step_walk.
Qed.

Lemma save_sessions_slots self : steps slots_le (save_sessions self).
Proof.
  unfold save_sessions. step_bind; [step_done |]. intros st.
  induction (map_to_list (sessions st)) as [|[nm f] l IH]; simpl; [step_done |].
  step_bind; [apply Factory_save_session_slots | intros _; exact IH].
Qed.

Lemma get_store_slots factory key : steps slots_le (get_store factory key).
Proof.
  intros w. unfold get_store, bind, gets.
  destruct (registry (request w) !! key); [reflexivity |].
  destruct (factory (request w)) as [st|e]; [| reflexivity].
  intros i st0 H. exists st0. simpl.
  split; [by apply lookup_app_l_Some |]. split; [done | by left].
Qed.

Lemma run_calls_slots cs w : slots_le w (run_calls cs w).
Proof.
  revert w. induction cs as [|c cs IH]; intros w; simpl; [reflexivity |].
  etrans; [| apply IH]. destruct c; simpl.
  - apply steps_discard; [apply _ | apply get_store_slots].
  - by apply same_stores_slots.
  - apply steps_discard; [apply _ | apply get_session_slots].
  - apply steps_discard; [apply _ | apply get_secure_cookie_slots].
  - apply set_secure_cookie_slots.
  - apply save_secure_cookie_slots.
  - apply save_sessions_slots.
  - apply on_dict_slots.
Qed.

Lemma serializer_result_stable w w' self sg :
  result (serializer self w) = Return sg -> slots_le w w' ->
  result (serializer self w') = Return sg.
Proof.
  intros H Hle. destruct (stores w !! self) as [st|] eqn:Hst.
  - destruct (Hle _ _ Hst) as (st' & Hst' & Hc & Hs).
    rewrite (serializer_eq _ _ _ Hst) in H. rewrite (serializer_eq _ _ _ Hst'), Hc.
    destruct Hs as [-> | (Hn & sg' & Hi & ->)].
    + destruct (serializer_slot st); [done |].
      by destruct (SecureCookieSerializer_init _).
    + rewrite Hn, Hi in H. simpl in *. congruence.
  - unfold serializer in H. by rewrite (bind_raise _ _ _ _ _ (the_store_none _ _ Hst)) in H.
Qed.


(** ** What saving changes and what it writes *)

#[local] Instance only_saves_preorder : PreOrder only_saves.
Proof.
  split.
  - intros w. repeat split; try done. intros i st H. by exists st.
  - intros w1 w2 w3 (Hd & Hq & Hr & Hs) (Hd' & Hq' & Hr' & Hs').
    repeat split; try congruence; [by etrans |].
    intros i st H. destruct (Hs _ _ H) as (st2 & H2 & E1 & E2).
    destruct (Hs' _ _ H2) as (st3 & H3 & E1' & E2'). exists st3.
    repeat split; congruence.
Qed.

Lemma serializer_only_saves self : steps only_saves (serializer self).
Proof.
  eapply steps_weaken; [| apply serializer_same].
  intros w w' (Hd & Hr & Hq & _ & Hs). repeat split; try done. by rewrite Hr.
Qed.

Lemma add_cookie_only_saves c :
  steps only_saves (modify (fun w => set_response w (response w ++ [c]))).
Proof.
  intros w. repeat split; try done.
  - simpl. by apply prefix_app_r.
  - intros i st H. by exists st.
Qed.

#[local] Hint Resolve serializer_only_saves add_cookie_only_saves : steps.

Lemma Factory_save_session_only_saves c : steps only_saves (Factory_save_session c).
Proof.
  unfold Factory_save_session, SecureCookieSessionFactory_save_session,
    save_secure_cookie.
  step_walk.
Qed.

Lemma save_sessions_only_saves self : steps only_saves (save_sessions self).
Proof.
  unfold save_sessions. step_bind; [step_done |]. intros st.
  induction (map_to_list (sessions st)) as [|[nm f] l IH]; simpl; [step_done |].
  step_bind; [apply Factory_save_session_only_saves | intros _; exact IH].
Qed.

(** X7: saving only writes.  Whether it returns or raises,
    [save_sessions] leaves every session dictionary as it was (data,
    [new] and [modified] flags: a saved session is still marked
    modified), leaves the request and the factories each store tracks
    as they were, and only adds cookies to the response. *)
Theorem save_sessions_only_writes self w :
  let w' := after (save_sessions self w) in
  dicts w' = dicts w /\ request w' = request w /\
  (exists written, response w' = (response w ++ written)%list) /\
  (forall i st, stores w !! i = Some st ->
     exists st', stores w' !! i = Some st' /\
                 sessions st' = sessions st /\ config st' = config st).
Proof.
  destruct (save_sessions_only_saves self w) as (Hd & Hq & Hr & Hs).
  repeat split; try done.
Qed.

Lemma for_each_unchanged {A} (l : list A) (body : A -> Eff World unit) w :
  (forall x, x ∈ l -> body x w = (Return tt, w)) ->
  for_each l body w = (Return tt, w).
Proof.
  induction l as [|x l IH]; intros H; simpl; [done |].
  rewrite (bind_eq _ _ _ _ _ (H x ltac:(left))). apply IH.
  intros y Hy. apply H. by right.
Qed.

Lemma save_sessions_nothing_to_write w self st :
  stores w !! self = Some st ->
  (forall nm f, sessions st !! nm = Some f ->
     class_of f = SecureCookieSessionFactory /\
     (session f = None \/
      exists l d, session f = Some l /\ dicts w !! l = Some d /\ modified d = false)) ->
  save_sessions self w = (Return tt, w).
Proof.
  intros Hst Hall. unfold save_sessions.
  rewrite (bind_eq _ _ _ _ _ (the_store_eq _ _ _ Hst)).
  apply for_each_unchanged. intros [nm f] Hin.
  apply elem_of_map_to_list in Hin.
  destruct (Hall _ _ Hin) as [Hc [Hnone | (l & d & Hl & Hd & Hm)]].
  - by eapply save_session_never_created.
  - by eapply save_session_unmodified.
Qed.

(** X8: when every session a store tracks is cookie-backed and has
    not been created, or has not been modified, [save_sessions] returns
    and changes nothing at all: no cookie is written and the serializer
    is not even built, so this holds whatever the secret key. *)
Theorem save_sessions_without_changes w self st :
  stores w !! self = Some st ->
  (forall nm f, sessions st !! nm = Some f ->
     class_of f = SecureCookieSessionFactory /\
     (session f = None \/
      exists l d, session f = Some l /\ dicts w !! l = Some d /\ modified d = false)) ->
  save_sessions self w = (Return tt, w).
Proof. apply save_sessions_nothing_to_write. Qed.

(** X9: what a session created by [get_session] looks like.  It is
    [new] exactly when reading the cookie gave nothing, it holds what
    the cookie gave (nothing for no data or empty data), it is not
    modified, and its [container] is the factory tracked under the
    resolved name. *)
Theorem new_session_reflects_cookie w self nm max_age st data :
  stores w !! self = Some st ->
  sessions st !! resolved_name st nm = None ->
  result (get_secure_cookie self (resolved_name st nm)
            (MaxAge (effective_max_age st max_age)) w) = Return data ->
  exists w1 d,
    get_session self nm max_age SecureCookieSessionFactory w
    = (Return (length (dicts w)), w1) /\
    dicts w1 !! length (dicts w) = Some d /\
    (new d = true <-> data = None) /\ items d = default ∅ data /\
    modified d = false /\ container d = (self, resolved_name st nm).
Proof.
  intros Hst Hnone Hdata.
  destruct (get_session_creates _ _ _ _ _ _ Hst Hnone Hdata)
    as (w1 & st1 & Hget & _ & _ & _ & Hd & _).
  eexists w1, _. split; [exact Hget |].
  split; [rewrite Hd; apply list_lookup_middle; reflexivity |].
  split; [| split; [apply SessionDict_init_items | split; reflexivity]].
  simpl. destruct data; split; congruence.
Qed.

(** X10: a request that carries no cookie under the name, or an empty
    one, needs no serializer.  [get_secure_cookie] returns [None] and
    changes nothing, and the first [get_session] for the name returns a
    new, empty, unmodified session, leaves the response alone and adds
    nothing to the store but the factory: the serializer slot stays as
    it was, whatever the secret key. *)
Theorem no_cookie_needs_no_serializer w self nm max_age st :
  stores w !! self = Some st ->
  sessions st !! resolved_name st nm = None ->
  cookies (request w) !! resolved_name st nm = None \/
  cookies (request w) !! resolved_name st nm = Some "" ->
  let n := resolved_name st nm in
  get_secure_cookie self n max_age w = (Return None, w) /\
  exists w1,
    get_session self nm max_age SecureCookieSessionFactory w
    = (Return (length (dicts w)), w1) /\
    dicts w1 = (dicts w ++ [{| container := (self, n); new := true; modified := false;
                               items := ∅ |}])%list /\
    stores w1
    = <[self := {| config := config st;
                   sessions := <[n := {| class_of := SecureCookieSessionFactory;
                                         name := n; session_store := self;
                                         session_args := cookie_args (config st);
                                         session := Some (length (dicts w)) |}]>
                                 (sessions st);
                   serializer_slot := serializer_slot st |}]> (stores w) /\
    response w1 = response w /\ request w1 = request w.
Proof.
  intros Hst Hnone Hcookie n. subst n. set (n := resolved_name st nm) in *.
  assert (forall w' st' ma, stores w' !! self = Some st' -> request w' = request w ->
            get_secure_cookie self n ma w' = (Return None, w')) as Hread.
  { intros w' st' ma Hst' Hq. rewrite (get_secure_cookie_eq _ _ _ _ _ Hst'), Hq.
    by destruct Hcookie as [-> | ->]. }
  split; [by eapply Hread |].
  rewrite (get_session_eq _ _ _ _ _ _ Hst). fold n.
  rewrite (bind_eq _ _ _ _ _ (container_new _ _ _ _ _ Hst Hnone)).
  set (f0 := {| class_of := SecureCookieSessionFactory; name := n; session_store := self;
                session_args := cookie_args (config st); session := None |}).
  set (st0 := set_sessions st (<[n := f0]> (sessions st))).
  set (w0 := set_stores w (<[self := st0]> (stores w))).
  assert (stores w0 !! self = Some st0) as Hst0.
  { simpl. apply list_lookup_insert_eq. by eapply lookup_lt_Some. }
  assert (sessions st0 !! n = Some f0) as Hf0 by (simpl; apply lookup_insert_eq).
  unfold Factory_get_session.
  rewrite (bind_eq _ _ _ _ _ (the_factory_eq _ _ _ _ _ Hst0 Hf0)).
  change (class_of f0) with SecureCookieSessionFactory. cbv iota.
  destruct (SecureCookie_get_session_new w0 self n st0 f0
              (MaxAge (effective_max_age st max_age)) None w0 Hst0 Hf0 eq_refl)
    as (st1 & Hst1 & _ & _ & _ & ->); [by eapply Hread |].
  assert (st1 = st0) as -> by congruence.
  eexists. split; [reflexivity |]. unfold session_resolved. simpl.
  split; [reflexivity |]. split; [| done].
  rewrite list_insert_insert_eq. by rewrite insert_insert_eq.
Qed.

(** X11: a missing or empty session name stands for the configured
    cookie name: [get_session()] , [get_session('')] and
    [get_session(cookie_name)] are the same call. *)
Theorem get_session_default_name w self max_age factory st :
  stores w !! self = Some st ->
  get_session self (Some "") max_age factory w = get_session self None max_age factory w /\
  get_session self (Some (cookie_name (config st))) max_age factory w
  = get_session self None max_age factory w.
Proof.
  intros Hst. rewrite !(get_session_eq _ _ _ _ _ _ Hst). split; [done |].
  unfold resolved_name. by destruct (str_bool (cookie_name (config st))).
Qed.

(** A modified, non-empty cookie-backed session is written as one
    cookie on top of the response. *)
Lemma save_session_writes w self nm st f l d sg :
  stores w !! self = Some st -> sessions st !! nm = Some f ->
  class_of f = SecureCookieSessionFactory -> session f = Some l ->
  dicts w !! l = Some d -> modified d = true -> items d <> ∅ ->
  result (serializer (session_store f) w) = Return sg ->
  exists w1,
    Factory_save_session (self, nm) w = (Return tt, w1) /\
    response w1 = (response w ++ [{| cookie_key := name f;
                                     cookie_value := serialize sg (name f) (items d);
                                     cookie_kwargs := session_args f |}])%list.
Proof.
  intros Hst Hf Hc Hl Hd Hm Hne Hsg.
  destruct (serializer (session_store f) w) as [r w0] eqn:Hser.
  simpl in Hsg. subst r.
  pose proof (serializer_same (session_store f) w) as (_ & Hr & _).
  rewrite Hser in Hr. simpl in Hr.
  eexists. split; [by eapply save_session_modified |]. simpl. by rewrite Hr.
Qed.

(** X12: a session fetched on a store that tracks nothing yet, and
    saved.  Saved as fetched, nothing is written.  Once one key has
    been set in it, [save_sessions] returns and adds exactly one cookie
    to the response: under the resolved session name, holding the
    serialized data (what the cookie gave, with the key set), with the
    configured [cookie_args]. *)
Theorem modified_session_is_written_once w self nm max_age st data key value sg :
  stores w !! self = Some st -> sessions st = ∅ ->
  result (get_secure_cookie self (resolved_name st nm)
            (MaxAge (effective_max_age st max_age)) w) = Return data ->
  result (serializer self w) = Return sg ->
  let n := resolved_name st nm in
  let w1 := after (get_session self nm max_age SecureCookieSessionFactory w) in
  let w2 := after (on_dict (length (dicts w)) (__setitem__ key value) w1) in
  save_sessions self w1 = (Return tt, w1) /\
  result (save_sessions self w2) = Return tt /\
  response (after (save_sessions self w2))
  = (response w ++ [{| cookie_key := n;
                       cookie_value := serialize sg n (<[key := value]> (default ∅ data));
                       cookie_kwargs := cookie_args (config st) |}])%list.
Proof.
  intros Hst Hempty Hdata Hsg n w1 w2.
  assert (sessions st !! n = None) as Hnone by (rewrite Hempty; apply lookup_empty).
  destruct (get_session_creates _ _ _ _ _ _ Hst Hnone Hdata)
    as (w1' & st1 & Hget & Hst1 & Hc & Hs & Hd & Hr & Hq).
  assert (w1 = w1') as Hw1 by (subst w1; by rewrite Hget).
  clearbody w1. subst w1.
  fold n in Hs, Hd. rewrite Hempty in Hs.
  set (f1 := {| class_of := SecureCookieSessionFactory; name := n; session_store := self;
                session_args := cookie_args (config st);
                session := Some (length (dicts w)) |}) in *.
  set (d1 := SessionDict_init (self, n) data _) in *.
  assert (dicts w1' !! length (dicts w) = Some d1) as Hd1.
  { rewrite Hd. apply list_lookup_middle. reflexivity. }
  assert (sessions st1 !! n = Some f1) as Hf1 by (rewrite Hs; apply lookup_insert_eq).
  split.
  { apply (save_sessions_nothing_to_write _ _ st1); [done |].
    intros nm' f' Hf'. rewrite Hs in Hf'.
    apply lookup_insert_Some in Hf' as [[<- <-] | [_ Hf']];
      [| by rewrite lookup_empty in Hf'].
    split; [done |]. right. by exists (length (dicts w)), d1. }
  assert (w2 = set_dicts w1' (<[length (dicts w) :=
                                 on_update (set_items d1 (<[key := value]> (items d1)))]>
                                (dicts w1'))) as Hw2.
  { subst w2. unfold on_dict. by rewrite Hd1, setitem_eq. }
  assert (slots_le w w2) as Hslots.
  { etrans; [apply (get_session_slots self nm max_age SecureCookieSessionFactory w) |].
    rewrite Hget. apply (on_dict_slots _ (__setitem__ key value) w1'). }
  pose proof (serializer_result_stable _ _ _ _ Hsg Hslots) as Hsg2.
  destruct (save_session_writes w2 self n st1 f1 (length (dicts w))
              (on_update (set_items d1 (<[key := value]> (items d1)))) sg)
    as (w3 & Hsave & Hresp); try done.
  { by rewrite Hw2. }
  { rewrite Hw2. simpl. apply list_lookup_insert_eq. by eapply lookup_lt_Some. }
  { simpl. apply insert_non_empty. }
  assert (save_sessions self w2 = (Return tt, w3)) as ->.
  { unfold save_sessions.
    rewrite (bind_eq _ _ _ _ _ (the_store_eq w2 self st1 ltac:(by rewrite Hw2))).
    rewrite Hs, insert_empty, map_to_list_singleton. simpl.
    by rewrite (bind_eq _ _ _ _ _ Hsave). }
  split; [done |]. simpl. rewrite Hresp. simpl.
  pose proof (SessionDict_init_items (self, n) data true) as Hitems.
  unfold SessionDict_init, after in Hitems. simpl in Hitems. rewrite Hitems.
  rewrite Hw2. simpl. by rewrite Hr.
Qed.

(** X13: the options given to [set_secure_cookie] reach the cookie.
    For a name the store does not track and the request carries no
    cookie for, after [set_secure_cookie(name, value, **kwargs)] with a
    non-empty [value], saving that session writes one cookie named
    [name], holding the serialized [value], with the configured
    [cookie_args] overridden by [kwargs]. *)
Theorem secure_cookie_is_saved_with_its_options w self nm st value kwargs sg :
  stores w !! self = Some st -> sessions st !! nm = None ->
  cookies (request w) !! nm = None -> value <> ∅ ->
  result (serializer self w) = Return sg ->
  let w1 := after (set_secure_cookie self nm (VDict value) kwargs w) in
  exists w2,
    Factory_save_session (self, nm) w1 = (Return tt, w2) /\
    response w2
    = (response w ++ [{| cookie_key := nm; cookie_value := serialize sg nm value;
                         cookie_kwargs := kwargs ∪ cookie_args (config st) |}])%list.
Proof.
  intros Hst Hnone Hcookie Hne Hsg w1.
  assert (result (get_secure_cookie self nm DEFAULT_VALUE w) = Return None) as Hdata.
  { rewrite (get_secure_cookie_eq _ _ _ _ _ Hst). by rewrite Hcookie. }
  destruct (set_secure_cookie_creates w self nm st None value kwargs Hst Hnone Hdata)
    as (w1' & st1 & Hset & Hst1 & Hf1 & Hd1 & _ & Hr).
  assert (w1 = w1') as Hw1 by (subst w1; by rewrite Hset).
  clearbody w1. subst w1.
  assert (slots_le w w1') as Hslots.
  { pose proof (set_secure_cookie_slots self nm (VDict value) kwargs w) as H.
    by rewrite Hset in H. }
  pose proof (serializer_result_stable _ _ _ _ Hsg Hslots) as Hsg1.
  edestruct (save_session_writes w1' self nm st1) as (w2 & Hsave & Hresp);
    [exact Hst1 | exact Hf1 | reflexivity | reflexivity | exact Hd1 | reflexivity
    | | exact Hsg1 |].
  { simpl. intros E. apply Hne. by apply map_positive_l in E. }
  exists w2. split; [exact Hsave |]. rewrite Hresp, Hr. simpl.
  by rewrite !(right_id_L ∅ (∪)).
Qed.

(** ** A name bound to the abstract base factory *)

Lemma Factory_save_session_base w self nm :
  bound_to w self nm BaseSessionFactory ->
  Factory_save_session (self, nm) w = (Raise NotImplementedError, w).
Proof.
  intros (st & f & Hst & Hf & Hc). unfold Factory_save_session.
  rewrite (bind_eq _ _ _ _ _ (the_factory_eq _ _ _ _ _ Hst Hf)). by rewrite Hc.
Qed.

Lemma for_each_reaches_base self (l : list (string * Factory)) w nm :
  (exists f, (nm, f) ∈ l) -> bound_to w self nm BaseSessionFactory ->
  exists e, result (for_each l (fun '(n, _) => Factory_save_session (self, n)) w) = Raise e.
Proof.
  revert w. induction l as [|[n f0] l IH]; intros w [f Hin] Hb.
  { by apply elem_of_nil in Hin. }
  simpl. unfold bind.
  destruct (Factory_save_session (self, n) w) as [[[]|e] w'] eqn:E; [| by exists e].
  apply elem_of_cons in Hin as [[= -> ->] | Hin].
  - by rewrite (Factory_save_session_base _ _ _ Hb) in E.
  - apply IH; [by exists f |]. apply (bound_to_le w); [| done].
    pose proof (Factory_save_session_le (self, n) w) as Hle. by rewrite E in Hle.
Qed.

(** X14: a name bound to the abstract factory stays bound to it.
    [get_session] with [BaseSessionFactory] for a name the store does
    not track raises [NotImplementedError], but the factory instance
    it made stays tracked under the name: whatever is called
    afterwards, every [get_session] for the name raises
    [NotImplementedError] whatever factory it is given, so does
    [set_secure_cookie] for the name, and [save_sessions] never
    returns. *)
Theorem abstract_factory_stays_bound w self nm max_age st :
  stores w !! self = Some st -> sessions st !! resolved_name st nm = None ->
  exists w1,
    get_session self nm max_age BaseSessionFactory w = (Raise NotImplementedError, w1) /\
    forall cs,
      let w2 := run_calls cs w1 in
      (forall max_age' factory',
         get_session self nm max_age' factory' w2 = (Raise NotImplementedError, w2)) /\
      (forall value kwargs,
         set_secure_cookie self (resolved_name st nm) (VDict value) kwargs w2
         = (Raise NotImplementedError, w2)) /\
      exists e, result (save_sessions self w2) = Raise e.
Proof.
  intros Hst Hnone. set (n := resolved_name st nm) in *.
  pose proof (container_new _ _ _ BaseSessionFactory _ Hst Hnone) as Hcont.
  set (w1 := set_stores w _) in Hcont.
  assert (bound_to w1 self n BaseSessionFactory) as Hb.
  { eexists _, _.
    split; [simpl; apply list_lookup_insert_eq; by eapply lookup_lt_Some |].
    split; [simpl; apply lookup_insert_eq | reflexivity]. }
  assert (world_le w w1) as Hle.
  { pose proof (_get_session_container_le self n BaseSessionFactory w) as H.
    by rewrite Hcont in H. }
  exists w1. split.
  { rewrite (get_session_eq _ _ _ _ _ _ Hst). fold n.
    rewrite (bind_eq _ _ _ _ _ Hcont). by apply Factory_get_session_base. }
  intros cs w2.
  assert (world_le w w2) as Hle2 by (etrans; [exact Hle | apply run_calls_le]).
  assert (bound_to w2 self n BaseSessionFactory) as Hb2.
  { apply (bound_to_le w1); [apply run_calls_le | done]. }
  destruct (config_le _ _ _ _ Hle2 Hst) as (st2 & Hst2 & Hc).
  destruct Hb2 as (st2' & f2 & Hst2' & Hf2 & Hc2).
  assert (st2' = st2) as -> by congruence.
  assert (bound_to w2 self n BaseSessionFactory) as Hb2 by (by exists st2, f2).
  split; [| split].
  - intros max_age' factory'. rewrite (get_session_eq _ _ _ _ _ _ Hst2).
    assert (resolved_name st2 nm = n) as -> by (unfold n, resolved_name; by rewrite Hc).
    rewrite (bind_eq _ _ _ _ _ (container_known _ _ _ _ _ _ Hst2 Hf2)).
    by apply Factory_get_session_base.
  - intros value kwargs. unfold set_secure_cookie.
    rewrite (bind_eq _ _ _ _ _ (container_known _ _ _ _ _ _ Hst2 Hf2)).
    by rewrite (bind_raise _ _ _ _ _ (Factory_get_session_base _ _ _ DEFAULT_VALUE Hb2)).
  - unfold save_sessions. rewrite (bind_eq _ _ _ _ _ (the_store_eq _ _ _ Hst2)).
    apply (for_each_reaches_base self _ w2 n); [| done].
    exists f2. by apply elem_of_map_to_list.
Qed.

(** ** Sessions under different names *)

Lemma get_session_first_call_world w self nm max_age factory st l w1 :
  stores w !! self = Some st -> sessions st !! resolved_name st nm = None ->
  get_session self nm max_age factory w = (Return l, w1) ->
  l = length (dicts w) /\
  exists st1 d,
    stores w1 !! self = Some st1 /\ config st1 = config st /\
    (forall n, n <> resolved_name st nm -> sessions st1 !! n = sessions st !! n) /\
    dicts w1 = (dicts w ++ [d])%list.
Proof.
  intros Hst Hnone. set (n := resolved_name st nm) in *.
  rewrite (get_session_eq _ _ _ _ _ _ Hst). fold n.
  rewrite (bind_eq _ _ _ _ _ (container_new _ _ _ _ _ Hst Hnone)).
  set (f0 := {| class_of := factory; name := n; session_store := self;
                session_args := cookie_args (config st); session := None |}).
  set (st0 := set_sessions st (<[n := f0]> (sessions st))).
  set (w0 := set_stores w (<[self := st0]> (stores w))).
  assert (stores w0 !! self = Some st0) as Hst0.
  { simpl. apply list_lookup_insert_eq. by eapply lookup_lt_Some. }
  assert (sessions st0 !! n = Some f0) as Hf0 by (simpl; apply lookup_insert_eq).
  intros H.
  destruct (Factory_get_session_returns _ _ _ _ _ _ _ _ Hst0 Hf0 H)
    as [_ [[Hl _] | (_ & Hc & -> & data & wc & st1 & _ & Hst1 & E1 & E2 & Hd & ->)]];
    [discriminate |].
  split; [reflexivity |]. eexists _, _. unfold session_resolved. simpl.
  split; [apply list_lookup_insert_eq; by eapply lookup_lt_Some |].
  simpl. split; [by rewrite E2 |]. split; [| by rewrite Hd].
  intros n' Hn'. rewrite E1. simpl. by rewrite !lookup_insert_ne.
Qed.

(** X15: sessions fetched under different names are different
    objects.  When the first [get_session] for one name and then the
    first [get_session] for another name both return, the two handles
    differ, the second call leaves the first container as it was, and
    so does setting a key through the second handle. *)
Theorem named_sessions_are_separate w self nm1 nm2 ma1 ma2 f1 f2 st l1 l2 w1 w2 :
  stores w !! self = Some st ->
  sessions st !! resolved_name st nm1 = None ->
  sessions st !! resolved_name st nm2 = None ->
  resolved_name st nm1 <> resolved_name st nm2 ->
  get_session self nm1 ma1 f1 w = (Return l1, w1) ->
  get_session self nm2 ma2 f2 w1 = (Return l2, w2) ->
  l1 <> l2 /\ is_Some (dicts w1 !! l1) /\ dicts w2 !! l1 = dicts w1 !! l1 /\
  forall key value,
    dicts (after (on_dict l2 (__setitem__ key value) w2)) !! l1 = dicts w1 !! l1.
Proof.
  intros Hst Hn1 Hn2 Hne H1 H2.
  destruct (get_session_first_call_world _ _ _ _ _ _ _ _ Hst Hn1 H1)
    as (-> & st1 & d1 & Hst1 & Hc1 & Hs1 & Hd1).
  assert (resolved_name st1 nm2 = resolved_name st nm2) as Hr
    by (unfold resolved_name; by rewrite Hc1).
  assert (sessions st1 !! resolved_name st1 nm2 = None) as Hn2'.
  { rewrite Hr, Hs1; [done | congruence]. }
  destruct (get_session_first_call_world _ _ _ _ _ _ _ _ Hst1 Hn2' H2)
    as (-> & st2 & d2 & Hst2 & Hc2 & Hs2 & Hd2).
  assert (length (dicts w1) = S (length (dicts w))) as Hlen.
  { rewrite Hd1, length_app. simpl. lia. }
  assert (dicts w1 !! length (dicts w) = Some d1) as Hl1.
  { rewrite Hd1. apply list_lookup_middle. reflexivity. }
  assert (dicts w2 !! length (dicts w) = dicts w1 !! length (dicts w)) as Hsame.
  { rewrite Hd2. apply lookup_app_l. lia. }
  split; [lia |]. split; [by rewrite Hl1 |]. split; [exact Hsame |].
  intros key value. rewrite <- Hsame. unfold on_dict.
  destruct (dicts w2 !! length (dicts w1)) as [d|]; [| done].
  destruct (__setitem__ key value d) as [r d']. simpl.
  apply list_lookup_insert_ne. lia.
Qed.

(** ** What no handler call undoes *)

(** X16: whatever a handler calls, in whatever order and whether the
    calls return or raise: the inbound cookies and the application's
    configuration stay as they were; cookies set on the response are
    never taken back; every store stays alive with the same
    configuration and keeps tracking, under the same name and with the
    same class, every factory it tracked; and every session dictionary
    stays alive, owned by the same factory and with the same [new]
    flag. *)
Theorem handler_calls_undo_nothing cs w :
  let w' := run_calls cs w in
  cookies (request w') = cookies (request w) /\
  app_config (request w') = app_config (request w) /\
  (exists written, response w' = (response w ++ written)%list) /\
  (forall i st, stores w !! i = Some st ->
     exists st', stores w' !! i = Some st' /\ config st' = config st /\
       forall nm f, sessions st !! nm = Some f ->
         exists f', sessions st' !! nm = Some f' /\ class_of f' = class_of f /\
                    name f' = name f /\ session_store f' = session_store f) /\
  (forall l d, dicts w !! l = Some d ->
     exists d', dicts w' !! l = Some d' /\ container d' = container d /\ new d' = new d).
Proof.
  destruct (run_calls_le cs w) as (Hc & Ha & Hr & Hs & Hd).
  split; [done |]. split; [done |]. split; [done |]. split.
  - intros i st Hst. destruct (Hs _ _ Hst) as (st' & Hst' & Hcfg & Hfs).
    exists st'. split; [done |]. split; [done |]. intros nm f Hf.
    destruct (Hfs _ _ Hf) as (f' & Hf' & H1 & H2 & H3 & _). by exists f'.
  - intros l d Hl. destruct (Hd _ _ Hl) as (d' & Hl' & H1 & H2 & _). by exists d'.
Qed.

(** ** Failing to build a store *)

(** X17: when the registry has no store under the key and the factory
    raises, [get_store] raises the same exception and registers
    nothing: the world is as before, so the next [get_store] with a
    factory that returns builds the store and hands out the handle the
    failed call would have given. *)
Theorem failed_construction_registers_nothing w factory key e :
  registry (request w) !! key = None -> factory (request w) = Raise e ->
  get_store factory key w = (Raise e, w) /\
  forall factory' st, factory' (request w) = Return st ->
    result (get_store factory' key (after (get_store factory key w)))
    = Return (length (stores w)).
Proof.
  intros Hk Hf. rewrite (get_store_fails _ _ _ _ Hk Hf).
  split; [done |]. intros factory' st Hf'. simpl.
  by rewrite (get_store_new _ _ _ _ Hk Hf').
Qed.

(** ** Reading back what [set_secure_cookie] stored *)

(** X18: what [set_secure_cookie] stores is what [get_session] hands
    out.  For a non-empty name the store does not track, after
    [set_secure_cookie(name, value)] every [get_session(name)] returns,
    without changing anything, the session in which [value] has been
    merged over what the inbound cookie held, and that session is
    marked modified. *)
Theorem get_session_after_set_secure_cookie w self nm st data value kwargs :
  stores w !! self = Some st -> sessions st !! nm = None -> str_bool nm = true ->
  result (get_secure_cookie self nm DEFAULT_VALUE w) = Return data ->
  let w1 := after (set_secure_cookie self nm (VDict value) kwargs w) in
  forall max_age factory,
    exists l d,
      get_session self (Some nm) max_age factory w1 = (Return l, w1) /\
      dicts w1 !! l = Some d /\ items d = value ∪ default ∅ data /\
      modified d = true.
Proof.
  intros Hst Hnone Hnm Hdata w1 max_age factory.
  destruct (set_secure_cookie_creates w self nm st data value kwargs Hst Hnone Hdata)
    as (w1' & st1 & Hset & Hst1 & Hf1 & Hd1 & _).
  assert (w1 = w1') as Hw1 by (subst w1; by rewrite Hset).
  clearbody w1. subst w1.
  eexists _, _. split; [| split; [exact Hd1 |]].
  - apply (get_session_tracked _ _ _ _ _ st1); [done |].
    unfold resolved_name. rewrite Hnm. eexists st1, _.
    split; [exact Hst1 |]. split; [exact Hf1 |]. split; [discriminate | reflexivity].
  - split; [| reflexivity].
    pose proof (SessionDict_init_items (self, nm) data true) as Hitems.
    unfold SessionDict_init, after in Hitems. simpl in Hitems. simpl. by rewrite Hitems.
Qed.

(** ** Only saving sets cookies *)

#[local] Instance same_response_preorder : PreOrder same_response.
Proof. split; unfold same_response; [by intros ? | intros ???; congruence]. Qed.

Lemma put_store_resp self st : steps same_response (put_store self st).
Proof. by intros w. Qed.

Lemma new_dict_resp d : steps same_response (new_dict d).
Proof. by intros w. Qed.

Lemma on_dict_resp {A} l (m : Eff SessionDict A) : steps same_response (on_dict l m).
Proof.
  intros w. unfold on_dict. destruct (dicts w !! l) as [d|]; [| done].
  by destruct (m d).
Qed.

Lemma serializer_resp self : steps same_response (serializer self).
Proof.
  eapply steps_weaken; [| apply serializer_same]. by intros w w' (_ & Hr & _).
Qed.

#[local] Hint Resolve put_store_resp new_dict_resp on_dict_resp serializer_resp : steps.

Lemma put_factory_resp c f : steps same_response (put_factory c f).
Proof. unfold put_factory. step_walk. Qed.
#[local] Hint Resolve put_factory_resp : steps.

Lemma get_secure_cookie_resp self nm max_age :
  steps same_response (get_secure_cookie self nm max_age).
Proof. unfold get_secure_cookie. step_walk. Qed.
#[local] Hint Resolve get_secure_cookie_resp : steps.

Lemma Factory_get_session_resp c max_age :
  steps same_response (Factory_get_session c max_age).
Proof.
  unfold Factory_get_session, SecureCookieSessionFactory_get_session,
    CustomBackendSessionFactory_get_session, _get_by_sid.
  step_walk.
Qed.
#[local] Hint Resolve Factory_get_session_resp : steps.

Lemma _get_session_container_resp self nm factory :
  steps same_response (_get_session_container self nm factory).
Proof. unfold _get_session_container, BaseSessionFactory_init. step_walk. Qed.
#[local] Hint Resolve _get_session_container_resp : steps.

Lemma get_session_resp self nm max_age factory :
  steps same_response (get_session self nm max_age factory).
Proof. unfold get_session. step_walk. Qed.

Lemma set_secure_cookie_resp self nm value kwargs :
  steps same_response (set_secure_cookie self nm value kwargs).
Proof. unfold set_secure_cookie. step_walk. Qed.

Lemma get_store_resp factory key : steps same_response (get_store factory key).
Proof.
  intros w. unfold get_store, bind, gets.
  destruct (registry (request w) !! key); [done |].
  by destruct (factory (request w)).
Qed.

Lemma run_call_resp c w :
  is_save c = false -> response (after (run_call c w)) = response w.
Proof.
  intros Hc. destruct c; try discriminate; simpl.
  - apply (steps_discard same_response); apply get_store_resp.
  - done.
  - apply (steps_discard same_response); apply get_session_resp.
  - apply (steps_discard same_response); apply get_secure_cookie_resp.
  - apply set_secure_cookie_resp.
  - apply on_dict_resp.
Qed.

(** X19: only saving sets cookies.  Through any sequence of handler
    calls none of which is [save_sessions] or [save_secure_cookie]
    ([get_store], [set_store], [get_session], [get_secure_cookie],
    [set_secure_cookie] and every [SessionDict] method, returning or
    raising), the response stays exactly as it was. *)
Theorem only_saving_sets_cookies cs w :
  Forall (fun c => is_save c = false) cs ->
  response (run_calls cs w) = response w.
Proof.
  intros Hcs. revert w. induction Hcs as [|c cs Hc _ IH]; intros w; simpl; [done |].
  rewrite IH. by apply run_call_resp.
Qed.

(** ** The base class of the custom backends *)

(** X20: the base class of the custom backends resolves nothing.
    [get_session] with [CustomBackendSessionFactory] for a name the
    store does not track raises: [NotImplementedError], from
    [_get_by_sid], when the cookie could be read, and otherwise what
    reading the cookie raised.  The factory stays tracked under the
    name with no session, and nothing is written to the response. *)
Theorem custom_base_resolves_nothing w self nm max_age st :
  stores w !! self = Some st -> sessions st !! resolved_name st nm = None ->
  let n := resolved_name st nm in
  exists e w1,
    get_session self nm max_age CustomBackendSessionFactory w = (Raise e, w1) /\
    (forall data,
       result (get_secure_cookie self n (MaxAge (effective_max_age st max_age)) w)
       = Return data -> e = NotImplementedError) /\
    (forall e',
       result (get_secure_cookie self n (MaxAge (effective_max_age st max_age)) w)
       = Raise e' -> e = e') /\
    bound_to w1 self n CustomBackendSessionFactory /\
    (forall st1 f, stores w1 !! self = Some st1 -> sessions st1 !! n = Some f ->
                   session f = None) /\
    response w1 = response w.
Proof.
  intros Hst Hnone n. subst n. set (n := resolved_name st nm) in *.
  rewrite (get_session_eq _ _ _ _ _ _ Hst). fold n.
  rewrite (bind_eq _ _ _ _ _ (container_new _ _ _ _ _ Hst Hnone)).
  set (f0 := {| class_of := CustomBackendSessionFactory; name := n; session_store := self;
                session_args := cookie_args (config st); session := None |}).
  set (st0 := set_sessions st (<[n := f0]> (sessions st))).
  set (w0 := set_stores w (<[self := st0]> (stores w))).
  assert (stores w0 !! self = Some st0) as Hst0.
  { simpl. apply list_lookup_insert_eq. by eapply lookup_lt_Some. }
  assert (sessions st0 !! n = Some f0) as Hf0 by (simpl; apply lookup_insert_eq).
  pose proof (get_secure_cookie_frame w w0 self n (MaxAge (effective_max_age st max_age))
                st st0 Hst Hst0 eq_refl eq_refl eq_refl) as Hframe.
  pose proof (get_secure_cookie_same self n (MaxAge (effective_max_age st max_age)) w0)
    as (_ & Hr & _ & _ & Hs).
  unfold Factory_get_session.
  rewrite (bind_eq _ _ _ _ _ (the_factory_eq _ _ _ _ _ Hst0 Hf0)).
  change (class_of f0) with CustomBackendSessionFactory. cbv iota.
  unfold CustomBackendSessionFactory_get_session.
  rewrite (bind_eq _ _ _ _ _ (the_factory_eq _ _ _ _ _ Hst0 Hf0)).
  change (session f0) with (@None nat). cbv iota.
  change (session_store f0) with self. change (name f0) with n.
  unfold bind at 1.
  destruct (get_secure_cookie self n (MaxAge (effective_max_age st max_age)) w0)
    as [[data|e] w1] eqn:Hget; simpl in Hframe, Hr, Hs.
  - exists NotImplementedError, w1. split; [reflexivity |].
    split; [done |]. split; [intros e' He'; congruence |].
    destruct (Hs _ _ Hst0) as (st1 & Hst1 & E1 & _).
    split; [exists st1, f0; by rewrite E1 |].
    split; [| by rewrite Hr].
    intros st1' f Hst1' Hf. assert (st1' = st1) as -> by congruence.
    rewrite E1, Hf0 in Hf. by injection Hf as <-.
  - exists e, w1. split; [reflexivity |].
    split; [intros data Hd; congruence |]. split; [intros e' He'; congruence |].
    destruct (Hs _ _ Hst0) as (st1 & Hst1 & E1 & _).
    split; [exists st1, f0; by rewrite E1 |].
    split; [| by rewrite Hr].
    intros st1' f Hst1' Hf. assert (st1' = st1) as -> by congruence.
    rewrite E1, Hf0 in Hf. by injection Hf as <-.
Qed.

End StoreProperties.

(** * The model at work on a concrete request *)

Section Examples.
#[local] Existing Instance example_signer.

Lemma SessionDict_modified_tracking_witness :
  let self := SessionDict_init (0, "session") (Some {[ "user" := VStr "alice" ]}) false in
  modified self = false /\
  modified (after (__delitem__ "user" self)) = true /\
  modified (after (pop "user" None self)) = true /\
  __delitem__ "cart" self = (Raise (KeyError "cart"), self) /\
  pop "cart" None self = (Raise (KeyError "cart"), self) /\
  modified (call_methods [M_get "user" VNone; M_pop "cart" (Some VNone); M_clear]
              (after (__setitem__ "cart" (VList []) self))) = true /\
  (exists d, dicts (run_calls [Call_save_sessions 0;
                               Call_method 0 (M_get_flashes _flash);
                               Call_get_session 0 None DEFAULT_VALUE BaseSessionFactory]
                      logged_out) !! 0 = Some d /\ modified d = true).
Proof.
  intros self.
  destruct SessionDict_modified_tracking
    as (Hnew & Hset & Hdel & Hdel' & _ & _ & _ & Hpop & Hkeep & Hlife & Hpop').
  split; [apply Hnew |].
  split; [apply Hdel; vm_compute; eauto |].
  split; [apply Hpop; vm_compute; eauto |].
  split; [apply Hdel'; reflexivity |].
  split; [apply Hpop'; reflexivity |].
  split; [apply Hkeep, Hset |].
  eapply (Hlife _ logged_out 0); vm_compute; reflexivity.
Defined.

Lemma save_session_skips_emptied_session_witness :
  (exists d, dicts logged_out !! 0 = Some d /\ modified d = true /\ items d = ∅) /\
  Factory_save_session (0, "session") logged_out = (Return tt, logged_out) /\
  response (after (save_sessions 0 logged_out)) = [].
Proof.
  split; [eexists; repeat split; vm_compute; reflexivity |].
  split; [| vm_compute; reflexivity].
  eapply save_session_skips_emptied_session; vm_compute; reflexivity.
Defined.

Lemma get_session_one_container_per_name_witness :
  let first := get_session 0 None (MaxAge None) SecureCookieSessionFactory served in
  let later := run_calls [Call_method 0 (M_setitem "cart" (VList []));
                          Call_set_secure_cookie 0 "prefs" (VDict ∅) ∅;
                          Call_save_sessions 0] (after first) in
  result first = Return 0 /\
  get_session 0 (Some "session") DEFAULT_VALUE CustomBackendSessionFactory later
  = (Return 0, later) /\
  dicts served !! 0 = None /\
  (exists d, dicts (after first) !! 0 = Some d /\ container d = (0, "session")) /\
  result (on_dict 0 (__getitem__ "user")
            (after (on_dict 0 (__setitem__ "user" (VStr "bob")) (after first))))
  = Return (VStr "bob").
Proof.
  intros first later.
  destruct get_session_one_container_per_name as (Hagain & Hfirst & Hreturns & Hseen).
  split.
  { eapply (Hreturns served 0 None (MaxAge None)); vm_compute; reflexivity. }
  split.
  { apply (Hagain served 0 (Some "session") (MaxAge None) SecureCookieSessionFactory).
    vm_compute; reflexivity. }
  edestruct (Hfirst served 0 None (MaxAge None) SecureCookieSessionFactory)
    as (Hfresh & st1 & f & d & _ & _ & _ & _ & Hd & Hc & _);
    [vm_compute; reflexivity | vm_compute; reflexivity | vm_compute; reflexivity |].
  split; [exact Hfresh |]. split; [by exists d |].
  edestruct (Hseen served 0 None (MaxAge None) SecureCookieSessionFactory 0 (after first)
               d "user" (VStr "bob") DEFAULT_VALUE BaseSessionFactory)
    as (l' & _ & -> & Hget); [vm_compute; reflexivity | exact Hd |].
  exact Hget.
Defined.



Lemma secret_key_checked_at_first_use_witness :
  SessionStore_init (request unconfigured_world)
  = Return {| config := default_config; sessions := ∅; serializer_slot := None |} /\
  serializer 0 unconfigured_served = (Raise ConfigError, unconfigured_served) /\
  save_secure_cookie 0 "session" ∅ ∅ unconfigured_served
  = (Raise ConfigError, unconfigured_served) /\
  get_secure_cookie 0 "session" DEFAULT_VALUE unconfigured_served
  = (Raise ConfigError, unconfigured_served).
Proof.
  destruct secret_key_checked_at_first_use as (Hinit & _ & _ & Hlate).
  split; [apply Hinit; reflexivity |].
  edestruct (Hlate unconfigured_served 0) as (Hser & Hsave & Hget);
    [vm_compute; reflexivity | reflexivity | reflexivity |].
  split; [exact Hser |]. split; [apply Hsave |].
  eapply Hget; reflexivity.
Defined.

Lemma max_age_three_way_witness :
  result (get_secure_cookie 0 "session" DEFAULT_VALUE served) = Return None /\
  result (get_secure_cookie 0 "session" (MaxAge None) served)
  = Return (Some {[ "user" := VStr "alice" ]}) /\
  result (get_secure_cookie 0 "session" (MaxAge (Some 3600%Z)) served)
  = Return (Some {[ "user" := VStr "alice" ]}) /\
  get_session 0 None DEFAULT_VALUE SecureCookieSessionFactory served
  = get_session 0 None (MaxAge (Some 50%Z)) SecureCookieSessionFactory served /\
  (exists w2, get_session 0 None (MaxAge None) SecureCookieSessionFactory served
              = (Return 0, w2) /\
              dicts w2 !! 0 = Some (SessionDict_init (0, "session")
                                      (Some {[ "user" := VStr "alice" ]}) false)).
Proof.
  destruct max_age_three_way as (_ & _ & Hcookie & Hsession & Hcreated).
  assert (forall max_age, exists st sg w1,
             get_secure_cookie 0 "session" max_age served
             = (Return (deserialize sg "session" "alice-token"
                          (effective_max_age st max_age)), w1) /\
             st = {| config := example_config; sessions := ∅; serializer_slot := None |} /\
             sg = {| signer_key := "s3cr3t" |}) as H.
  { intros max_age. eexists _, _, _. split; [| split; reflexivity].
    eapply Hcookie; vm_compute; reflexivity. }
  split; [destruct (H DEFAULT_VALUE) as (st & sg & w1 & -> & -> & ->); reflexivity |].
  split; [destruct (H (MaxAge None)) as (st & sg & w1 & -> & -> & ->); reflexivity |].
  split; [destruct (H (MaxAge (Some 3600%Z))) as (st & sg & w1 & -> & -> & ->);
          reflexivity |].
  split.
  { apply (Hsession served 0 None DEFAULT_VALUE SecureCookieSessionFactory
             {| config := example_config; sessions := ∅; serializer_slot := None |}).
    reflexivity. }
  edestruct (Hcreated served 0 None (MaxAge None)) as (w2 & Hget & Hd);
    [vm_compute; reflexivity | vm_compute; reflexivity | vm_compute; reflexivity
    | reflexivity | vm_compute; reflexivity |].
  exists w2. split; [exact Hget | exact Hd].
Defined.

Lemma get_store_idempotent_witness :
  (exists w1, get_store SessionStore_init _registry_key example_world = (Return 0, w1) /\
              registry (request w1) !! _registry_key = Some 0) /\
  get_store (fun _ => Raise NotImplementedError) _registry_key served = (Return 0, served) /\
  (let later := run_calls [Call_get_session 0 None DEFAULT_VALUE SecureCookieSessionFactory;
                           Call_set_store 7 "other";
                           Call_get_store SessionStore_init "other"] served in
   get_store SessionStore_init _registry_key later = (Return 0, later)).
Proof.
  destruct get_store_idempotent as (Hfirst & Hsecond & Hlater & _).
  split.
  { edestruct (Hfirst example_world SessionStore_init _registry_key)
      as (w1 & H1 & _ & H2); [reflexivity | reflexivity |].
    exists w1. split; [exact H1 | exact H2]. }
  split.
  { apply (Hsecond example_world SessionStore_init). reflexivity. }
  intros later.
  apply (Hlater example_world SessionStore_init _registry_key 0 served); [reflexivity |].
  repeat constructor. discriminate.
Defined.

Lemma valid_sid_is_32_lowercase_hex_witness :
  truth (_is_valid_sid (Some "0123456789abcdef0123456789abcdef")) = true /\
  truth (_is_valid_sid (Some ("0123456789abcdef0123456789abcdef" +:+ newline))) = true /\
  truth (_is_valid_sid (Some "0123456789ABCDEF0123456789ABCDEF")) = false /\
  truth (_is_valid_sid (Some "0123456789abcdef")) = false.
Proof.
  destruct valid_sid_is_32_lowercase_hex as (Hvalid & _).
  split; [apply Hvalid; exists "0123456789abcdef0123456789abcdef"; auto |].
  split; [apply Hvalid; exists "0123456789abcdef0123456789abcdef"; auto |].
  split; reflexivity.
Defined.


Lemma save_sessions_only_writes_witness :
  dicts (after (save_sessions 0 logged_out)) = dicts logged_out /\
  exists st', stores (after (save_sessions 0 logged_out)) !! 0 = Some st' /\
              is_Some (sessions st' !! "session").
Proof.
  destruct (save_sessions_only_writes 0 logged_out) as (Hd & _ & _ & Hs).
  split; [exact Hd |].
  edestruct (Hs 0) as (st' & Hst' & Hsess & _); [vm_compute; reflexivity |].
  exists st'. split; [exact Hst' |]. rewrite Hsess. vm_compute. eauto.
Defined.

Lemma fetched_store :
  stores fetched !! 0
  = Some {| config := example_config;
            sessions := {[ "session" := {| class_of := SecureCookieSessionFactory;
                                           name := "session"; session_store := 0;
                                           session_args := cookie_args default_config;
                                           session := Some 0 |} ]};
            serializer_slot := Some {| signer_key := "s3cr3t" |} |}.
Proof. vm_compute. reflexivity. Qed.

Lemma save_sessions_without_changes_witness :
  save_sessions 0 fetched = (Return tt, fetched).
Proof.
  eapply save_sessions_without_changes; [exact fetched_store |].
  simpl. intros nm f H. apply lookup_singleton_Some in H as [<- <-].
  split; [reflexivity |]. right. eexists 0, _.
  split; [reflexivity |]. split; [vm_compute; reflexivity | reflexivity].
Defined.

Lemma new_session_reflects_cookie_witness :
  (exists w1 d,
     get_session 0 None (MaxAge None) SecureCookieSessionFactory served = (Return 0, w1) /\
     dicts w1 !! 0 = Some d /\ new d = false /\
     items d = {[ "user" := VStr "alice" ]}) /\
  (exists w1 d,
     get_session 0 None DEFAULT_VALUE SecureCookieSessionFactory served = (Return 0, w1) /\
     dicts w1 !! 0 = Some d /\ new d = true /\ items d = ∅).
Proof.
  split.
  - edestruct (new_session_reflects_cookie served 0 None (MaxAge None))
      as (w1 & d & Hget & Hd & Hnew & Hitems & _);
      [vm_compute; reflexivity | vm_compute; reflexivity | vm_compute; reflexivity |].
    exists w1, d. split; [exact Hget |]. split; [exact Hd |]. split; [| exact Hitems].
    destruct (new d); [| done]. discriminate (proj1 Hnew eq_refl).
  - edestruct (new_session_reflects_cookie served 0 None DEFAULT_VALUE)
      as (w1 & d & Hget & Hd & Hnew & Hitems & _);
      [vm_compute; reflexivity | vm_compute; reflexivity | vm_compute; reflexivity |].
    exists w1, d. split; [exact Hget |]. split; [exact Hd |].
    split; [by apply Hnew | exact Hitems].
Defined.

Lemma no_cookie_needs_no_serializer_witness :
  get_secure_cookie 0 "prefs" DEFAULT_VALUE unconfigured_served
  = (Return None, unconfigured_served) /\
  exists w1, get_session 0 (Some "prefs") DEFAULT_VALUE SecureCookieSessionFactory
               unconfigured_served = (Return 0, w1) /\
             response w1 = [].
Proof.
  edestruct (no_cookie_needs_no_serializer unconfigured_served 0 (Some "prefs")
               DEFAULT_VALUE) as (Hread & w1 & Hget & _ & _ & Hr & _);
    [vm_compute; reflexivity | vm_compute; reflexivity | left; vm_compute; reflexivity |].
  split; [exact Hread |]. exists w1. split; [exact Hget | exact Hr].
Defined.

Lemma get_session_default_name_witness :
  get_session 0 (Some "") DEFAULT_VALUE SecureCookieSessionFactory served
  = get_session 0 None DEFAULT_VALUE SecureCookieSessionFactory served /\
  get_session 0 (Some "session") DEFAULT_VALUE SecureCookieSessionFactory served
  = get_session 0 None DEFAULT_VALUE SecureCookieSessionFactory served.
Proof.
  apply (get_session_default_name served 0 DEFAULT_VALUE SecureCookieSessionFactory
           {| config := example_config; sessions := ∅; serializer_slot := None |}).
  reflexivity.
Defined.

Lemma modified_session_is_written_once_witness :
  let w2 := after (on_dict 0 (__setitem__ "cart" (VList [])) fetched) in
  save_sessions 0 fetched = (Return tt, fetched) /\
  result (save_sessions 0 w2) = Return tt /\
  response (after (save_sessions 0 w2))
  = [{| cookie_key := "session";
        cookie_value := serialize {| signer_key := "s3cr3t" |} "session"
                          (<["cart" := VList []]> {[ "user" := VStr "alice" ]});
        cookie_kwargs := cookie_args default_config |}].
Proof.
  intros w2.
  exact (modified_session_is_written_once served 0 None (MaxAge None)
           {| config := example_config; sessions := ∅; serializer_slot := None |}
           (Some {[ "user" := VStr "alice" ]}) "cart" (VList [])
           {| signer_key := "s3cr3t" |} eq_refl eq_refl eq_refl eq_refl).
Defined.

Lemma secure_cookie_is_saved_with_its_options_witness :
  let w1 := after (set_secure_cookie 0 "prefs" (VDict {[ "theme" := VStr "dark" ]})
                     {[ "max_age" := VInt 60 ]} served) in
  exists w2,
    Factory_save_session (0, "prefs") w1 = (Return tt, w2) /\
    response w2
    = [{| cookie_key := "prefs";
          cookie_value := serialize {| signer_key := "s3cr3t" |} "prefs"
                            {[ "theme" := VStr "dark" ]};
          cookie_kwargs := {[ "max_age" := VInt 60 ]} ∪ cookie_args default_config |}].
Proof.
  apply (secure_cookie_is_saved_with_its_options served 0 "prefs"
           {| config := example_config; sessions := ∅; serializer_slot := None |}
           {[ "theme" := VStr "dark" ]} {[ "max_age" := VInt 60 ]}
           {| signer_key := "s3cr3t" |});
    try reflexivity.
  apply insert_non_empty.
Defined.

Lemma abstract_factory_stays_bound_witness :
  exists w1,
    get_session 0 (Some "admin") DEFAULT_VALUE BaseSessionFactory served
    = (Raise NotImplementedError, w1) /\
    get_session 0 (Some "admin") DEFAULT_VALUE SecureCookieSessionFactory w1
    = (Raise NotImplementedError, w1) /\
    exists e, result (save_sessions 0
                        (run_calls [Call_get_session 0 None DEFAULT_VALUE
                                      SecureCookieSessionFactory] w1)) = Raise e.
Proof.
  edestruct (abstract_factory_stays_bound served 0 (Some "admin") DEFAULT_VALUE)
    as (w1 & Hfirst & Hlater); [vm_compute; reflexivity | vm_compute; reflexivity |].
  exists w1. split; [exact Hfirst |]. split.
  - apply (Hlater []).
  - apply (Hlater [Call_get_session 0 None DEFAULT_VALUE SecureCookieSessionFactory]).
Defined.

Lemma named_sessions_are_separate_witness :
  exists l1 l2 w1 w2,
    get_session 0 None (MaxAge None) SecureCookieSessionFactory served = (Return l1, w1) /\
    get_session 0 (Some "prefs") DEFAULT_VALUE SecureCookieSessionFactory w1
    = (Return l2, w2) /\
    l1 <> l2 /\ dicts w2 !! l1 = dicts w1 !! l1.
Proof.
  eexists _, _, _, _. split; [vm_compute; reflexivity |].
  split; [vm_compute; reflexivity |].
  edestruct (named_sessions_are_separate served 0 None (Some "prefs") (MaxAge None)
               DEFAULT_VALUE SecureCookieSessionFactory SecureCookieSessionFactory)
    as (Hne & _ & Hsame & _);
    [vm_compute; reflexivity | vm_compute; reflexivity | vm_compute; reflexivity
    | vm_compute; discriminate | vm_compute; reflexivity | vm_compute; reflexivity |].
  split; [exact Hne | exact Hsame].
Defined.

Lemma handler_calls_undo_nothing_witness :
  let w' := run_calls [Call_method 0 (M_setitem "user" (VStr "bob"));
                       Call_save_sessions 0;
                       Call_set_store 3 _registry_key] fetched in
  exists d', dicts w' !! 0 = Some d' /\ container d' = (0, "session") /\ new d' = false.
Proof.
  intros w'.
  destruct (handler_calls_undo_nothing
              [Call_method 0 (M_setitem "user" (VStr "bob"));
               Call_save_sessions 0; Call_set_store 3 _registry_key] fetched)
    as (_ & _ & _ & _ & Hd).
  edestruct (Hd 0) as (d' & Hd' & Hc & Hn); [vm_compute; reflexivity |].
  exists d'. split; [exact Hd' |]. split; [exact Hc | exact Hn].
Defined.

Lemma failed_construction_registers_nothing_witness :
  let broken : Request -> outcome SessionStore :=
    fun _ => Raise (AttributeError "backend") in
  get_store broken _registry_key bare_world
  = (Raise (AttributeError "backend"), bare_world) /\
  result (get_store SessionStore_init _registry_key
            (after (get_store broken _registry_key bare_world)))
  = Return 0.
Proof.
  intros broken.
  edestruct (failed_construction_registers_nothing bare_world broken _registry_key)
    as (H1 & H2); [reflexivity | reflexivity |].
  split; [exact H1 |].
  apply (H2 SessionStore_init
            {| config := default_config; sessions := ∅; serializer_slot := None |}).
  reflexivity.
Defined.

Lemma get_session_after_set_secure_cookie_witness :
  let w1 := after (set_secure_cookie 0 "session" (VDict {[ "theme" := VStr "dark" ]}) ∅
                     served) in
  exists l d,
    get_session 0 (Some "session") (MaxAge None) BaseSessionFactory w1 = (Return l, w1) /\
    dicts w1 !! l = Some d /\ items d = {[ "theme" := VStr "dark" ]} ∪ default ∅ None /\
    modified d = true.
Proof.
  apply (get_session_after_set_secure_cookie served 0 "session"
           {| config := example_config; sessions := ∅; serializer_slot := None |});
    reflexivity.
Defined.

Lemma only_saving_sets_cookies_witness :
  response (run_calls [Call_get_store SessionStore_init _registry_key;
                       Call_get_session 0 None (MaxAge None) SecureCookieSessionFactory;
                       Call_method 0 (M_setitem "cart" (VList []));
                       Call_set_secure_cookie 0 "prefs" (VDict {[ "lang" := VStr "lt" ]}) ∅;
                       Call_method 7 M_clear;
                       Call_get_session 0 (Some "other") DEFAULT_VALUE BaseSessionFactory]
              example_world)
  = response example_world.
Proof.
  apply only_saving_sets_cookies. repeat constructor.
Defined.

Lemma custom_base_resolves_nothing_witness :
  exists w1,
    get_session 0 None (MaxAge None) CustomBackendSessionFactory served
    = (Raise NotImplementedError, w1) /\
    bound_to w1 0 "session" CustomBackendSessionFactory /\
    response w1 = [].
Proof.
  edestruct (custom_base_resolves_nothing served 0 None (MaxAge None))
    as (e & w1 & Hrun & Hread & _ & Hbound & _ & Hresp);
    [vm_compute; reflexivity | vm_compute; reflexivity |].
  exists w1. rewrite Hrun.
  rewrite (Hread (Some {[ "user" := VStr "alice" ]})); [| vm_compute; reflexivity].
  split; [reflexivity |]. split; [exact Hbound | exact Hresp].
Defined.

End Examples.
